(** * MPFProcess: the supervision loop of an MPFramework worker process

    A shallow embedding of [MPFProcess.py].  The Python object is a record
    of its attributes; [run] is written in a small state-and-exception
    monad whose state carries the object, the world outside it and the
    sequence of calls made so far.  [try/except/finally], [break] and the
    [return] that closes the [finally] block are combinators with the
    meaning Python gives them.

    What the model fixes:
    - [while True] runs for at most a given number of iterations; a run
      that is cut there ends as [Running], which no handler catches and
      after which no [finally] block runs;
    - the helper classes [MPFTaskChecker] and [MPFResultPublisher], the
      imports, [time.sleep] and [traceback.format_exc] are parameters, and
      each call of them may raise;
    - a hook sees the whole object and acts on the world; of the
      attributes it may rebind only [shared_memory], the supervisor's own
      attributes stay the supervisor's;
    - [logging.getLogger] and the methods of a logger do not raise; a
      method call on [None] raises [AttributeError]. *)

From Stdlib Require Import String List Bool Arith Lia.
Import ListNotations.
Open Scope string_scope.

Set Implicit Arguments.

(** ** Python values the supervisor handles *)

(** Exceptions.  [NotImplementedError] is what the base hooks raise,
    [AttributeError] is what a method call on [None] raises; every other
    exception of a collaborator is [Exception] with a tag. *)
Inductive PyExc : Type :=
| NotImplementedError
| AttributeError
| Exception (what : string).

(** An attribute that is assigned, holds [None], or has been removed by
    [del]. *)
Inductive Attr (A : Type) : Type :=
| Deleted
| PyNone
| PyObj (a : A).
Arguments Deleted {A}.
Arguments PyNone {A}.
Arguments PyObj {A} a.

Inductive Level : Type := DEBUG | CRITICAL.

(** What [logging.getLogger(name)] returns. *)
Inductive Logger : Type := getLogger (name : string).

Definition newline : string := String (Ascii.ascii_of_nat 10) EmptyString.

(** The reserved header of line 58. *)
Definition STOP_PROCESS : string := "STOP PROCESS".

Section Supervisor.

(** Channel ends, shared memory handles, payloads, sleep durations, the
    two i/o helper classes of the framework, and everything outside the
    object (pipes, clock, the attributes a subclass adds). *)
Variables Chan Mem Data Period TaskChecker ResultPublisher World : Type.

(** *** The object: the attributes [__init__] creates (lines 17-24) *)
Record MPFProcess : Type := mkMPFProcess {
  _out : option Chan;
  _inp : option Chan;
  _loop_wait_period : option Period;
  name : string;
  shared_memory : option Mem;
  task_checker : Attr TaskChecker;
  results_publisher : Attr ResultPublisher;
  _MPFLog : option Logger
}.

Definition __init__ (process_name : string) (loop_wait_period : option Period)
  : MPFProcess :=
  {| _out := None;
     _inp := None;
     _loop_wait_period := loop_wait_period;
     name := process_name;
     shared_memory := None;
     task_checker := PyNone;
     results_publisher := PyNone;
     _MPFLog := None |}.

Definition default_process_name : string := "unnamed_process".

(** Line 100. *)
Definition set_shared_memory (self : MPFProcess) (memory : option Mem)
  : MPFProcess :=
  {| _out := _out self;
     _inp := _inp self;
     _loop_wait_period := _loop_wait_period self;
     name := name self;
     shared_memory := memory;
     task_checker := task_checker self;
     results_publisher := results_publisher self;
     _MPFLog := _MPFLog self |}.

(** *** Lifecycle hooks

    A hook is a method of the worker: it sees the object, acts on the
    world, may replace the shared memory handle (which the worker owns),
    and may raise. *)
Record HookResult : Type := mkHookResult {
  raised : option PyExc;
  memory_after : option Mem;
  world_after : World
}.

Definition Hook : Type := MPFProcess -> World -> HookResult.

Definition raise_NotImplementedError : Hook :=
  fun self w =>
    {| raised := Some NotImplementedError;
       memory_after := shared_memory self;
       world_after := w |}.

(** Lines 102-115: the five hooks of the base class. *)
Definition init : Hook := raise_NotImplementedError.
Definition update (header : string) (data : Data) : Hook :=
  raise_NotImplementedError.
Definition step : Hook := raise_NotImplementedError.
Definition publish : Hook := raise_NotImplementedError.
Definition cleanup : Hook := raise_NotImplementedError.

(** The method table of a concrete class. *)
Record Worker : Type := mkWorker {
  w_init : Hook;
  w_update : string -> Data -> Hook;
  w_step : Hook;
  w_publish : Hook;
  w_cleanup : Hook
}.

(** What a subclass defines; [None] is a method it does not override. *)
Record Subclass : Type := mkSubclass {
  def_init : option Hook;
  def_update : option (string -> Data -> Hook);
  def_step : option Hook;
  def_publish : option Hook;
  def_cleanup : option Hook
}.

Definition inherit {A : Type} (base : A) (own : option A) : A :=
  match own with
  | Some m => m
  | None => base
  end.

(** Method resolution: the subclass's method, else the base class's. *)
Definition methods (c : Subclass) : Worker :=
  {| w_init := inherit init (def_init c);
     w_update := inherit update (def_update c);
     w_step := inherit step (def_step c);
     w_publish := inherit publish (def_publish c);
     w_cleanup := inherit cleanup (def_cleanup c) |}.

(** *** Collaborators outside this file

    The imports of lines 35-38, the two helper classes, [time.sleep] and
    [traceback.format_exc].  Every call may raise. *)
Record Externals : Type := mkExternals {
  import_modules : World -> option PyExc * World;
  MPFTaskChecker :
    option Chan -> string -> World -> (PyExc + TaskChecker) * World;
  MPFResultPublisher :
    option Chan -> string -> World -> (PyExc + ResultPublisher) * World;
  check_for_update :
    TaskChecker -> World -> (PyExc + bool) * TaskChecker * World;
  header : TaskChecker -> string;
  latest_data : TaskChecker -> Data;
  checker_cleanup :
    TaskChecker -> World -> option PyExc * TaskChecker * World;
  sleep : Period -> World -> option PyExc * World;
  format_exc : PyExc -> string
}.

(** *** Calls, in the order they happen

    One event per call, with what the call gave back. *)
Inductive Poll : Type :=
| PollRaised (e : PyExc)
| NoUpdate
| NewMessage (h : string) (d : Data).

Inductive Event : Type :=
| EImport (r : option PyExc)
| ENewTaskChecker (r : option PyExc)
| ENewResultPublisher (r : option PyExc)
| ELog (lvl : Level) (msg : string)
| EInit (r : option PyExc)
| ECheckForUpdate (r : Poll)
| EUpdate (h : string) (d : Data) (r : option PyExc)
| EStep (r : option PyExc)
| EPublish (r : option PyExc)
| ESleep (p : Period) (r : option PyExc)
| ECheckerCleanup (r : option PyExc)
| EDelTaskChecker
| EDelResultPublisher
| ECleanup (r : option PyExc).

(** *** The monad *)
Record Exec : Type := mkExec {
  self : MPFProcess;
  world : World;
  trace : list Event
}.

(** How a block ends: it falls through with a value, an exception is in
    flight, or the loop has not finished within the iterations allowed. *)
Inductive Completion (A : Type) : Type :=
| Normal (a : A)
| Raised (e : PyExc)
| Running.
Arguments Raised {A} e.
Arguments Running {A}.

Definition M (A : Type) : Type := Exec -> Completion A * Exec.

Definition ret {A : Type} (a : A) : M A := fun st => (Normal a, st).

Definition bind {A B : Type} (m : M A) (k : A -> M B) : M B :=
  fun st =>
    match m st with
    | (Normal a, st') => k a st'
    | (Raised e, st') => (Raised e, st')
    | (Running, st') => (Running, st')
    end.

Definition raise {A : Type} (e : PyExc) : M A := fun st => (Raised e, st).

Definition emit (ev : Event) : M unit :=
  fun st =>
    (Normal tt,
     {| self := self st; world := world st; trace := trace st ++ [ev] |}).

Definition get_self : M MPFProcess := fun st => (Normal (self st), st).

Definition put_self (s : MPFProcess) : M unit :=
  fun st => (Normal tt, {| self := s; world := world st; trace := trace st |}).

Definition get_world : M World := fun st => (Normal (world st), st).

Definition put_world (w : World) : M unit :=
  fun st => (Normal tt, {| self := self st; world := w; trace := trace st |}).

(** [try: body except: handler]: a bare [except] catches everything. *)
Definition try_except (body : M unit) (handler : PyExc -> M unit) : M unit :=
  fun st =>
    match body st with
    | (Raised e, st') => handler e st'
    | other => other
    end.

(** [try: body finally: block; return].  The block runs however the body
    ended; when it reaches its [return] the pending exception is gone,
    when it raises, its own exception leaves. *)
Definition finally_return (body : M unit) (block : M unit) : M unit :=
  fun st =>
    match body st with
    | (Running, st') => (Running, st')
    | (_, st') => block st'
    end.


Notation "x <- m ;; k" := (bind m (fun x => k))
  (at level 61, m at next level, right associativity).
Notation "m ;; k" := (bind m (fun _ => k))
  (at level 61, right associativity).

(** *** Attribute writes *)
Definition with_task_checker (s : MPFProcess) (v : Attr TaskChecker)
  : MPFProcess :=
  {| _out := _out s; _inp := _inp s;
     _loop_wait_period := _loop_wait_period s; name := name s;
     shared_memory := shared_memory s; task_checker := v;
     results_publisher := results_publisher s; _MPFLog := _MPFLog s |}.

Definition with_results_publisher (s : MPFProcess) (v : Attr ResultPublisher)
  : MPFProcess :=
  {| _out := _out s; _inp := _inp s;
     _loop_wait_period := _loop_wait_period s; name := name s;
     shared_memory := shared_memory s; task_checker := task_checker s;
     results_publisher := v; _MPFLog := _MPFLog s |}.

Definition with_MPFLog (s : MPFProcess) (v : option Logger) : MPFProcess :=
  {| _out := _out s; _inp := _inp s;
     _loop_wait_period := _loop_wait_period s; name := name s;
     shared_memory := shared_memory s; task_checker := task_checker s;
     results_publisher := results_publisher s; _MPFLog := v |}.

(** What a hook leaves in the object: the handle it owns. *)
Definition after_hook (s : MPFProcess) (r : HookResult) : MPFProcess :=
  {| _out := _out s; _inp := _inp s;
     _loop_wait_period := _loop_wait_period s; name := name s;
     shared_memory := memory_after r; task_checker := task_checker s;
     results_publisher := results_publisher s; _MPFLog := _MPFLog s |}.

(** *** The log lines of [run] *)
Definition msg_initializing : string := "MPFProcess initializing...".
Definition msg_initialized (n : string) : string :=
  "MPFProcess " ++ n ++ " has successfully initialized".
Definition msg_stop (n : string) : string :=
  "PROCESS " ++ n ++ " RECEIVED STOP SIGNAL!".
Definition msg_crashed (n error : string) : string :=
  "MPFPROCESS " ++ n ++ " HAS CRASHED!" ++ newline
    ++ "EXCEPTION TRACEBACK:" ++ newline ++ error.
Definition msg_cleaning_checker (n : string) : string :=
  "MPFProcess " ++ n ++ " Cleaning task checker...".
Definition msg_cleaned_checker (n : string) : string :=
  "MPFProcess " ++ n ++ " has cleaned its task checker!".
Definition msg_cleaning_up (n : string) : string :=
  "MPFProcess " ++ n ++ " Cleaning up...".
Definition msg_exiting (n : string) : string :=
  "MPFProcess " ++ n ++ " Exiting!".

Variable ext : Externals.
Variable cls : Worker.

(** *** Statements of [run] *)

(** [self._MPFLog.debug(msg)] and [self._MPFLog.critical(msg)]: the
    method lookup fails on [None]. *)
Definition log (lvl : Level) (msg : string) : M unit :=
  s <- get_self ;;
  match _MPFLog s with
  | None => raise AttributeError
  | Some _ => emit (ELog lvl msg)
  end.

Definition finish (r : option PyExc) : M unit :=
  match r with
  | Some e => raise e
  | None => ret tt
  end.

(** [self.<hook>(...)] *)
Definition call_hook (h : Hook) (ev : option PyExc -> Event) : M unit :=
  s <- get_self ;;
  w <- get_world ;;
  let r := h s w in
  put_self (after_hook s r) ;;
  put_world (world_after r) ;;
  emit (ev (raised r)) ;;
  finish (raised r).

(** Lines 35-38. *)
Definition imports : M unit :=
  w <- get_world ;;
  let '(r, w') := import_modules ext w in
  put_world w' ;;
  emit (EImport r) ;;
  finish r.

(** Line 41. *)
Definition new_task_checker : M unit :=
  s <- get_self ;;
  w <- get_world ;;
  match MPFTaskChecker ext (_inp s) (name s) w with
  | (inl e, w') =>
      put_world w' ;; emit (ENewTaskChecker (Some e)) ;; raise e
  | (inr tc, w') =>
      put_world w' ;; emit (ENewTaskChecker None) ;;
      put_self (with_task_checker s (PyObj tc))
  end.

(** Line 42. *)
Definition new_results_publisher : M unit :=
  s <- get_self ;;
  w <- get_world ;;
  match MPFResultPublisher ext (_out s) (name s) w with
  | (inl e, w') =>
      put_world w' ;; emit (ENewResultPublisher (Some e)) ;; raise e
  | (inr rp, w') =>
      put_world w' ;; emit (ENewResultPublisher None) ;;
      put_self (with_results_publisher s (PyObj rp))
  end.

(** Line 44. *)
Definition assign_logger : M unit :=
  s <- get_self ;;
  put_self (with_MPFLog s (Some (getLogger "MPFLogger"))).

(** Lines 35-45. *)
Definition setup : M unit :=
  imports ;;
  new_task_checker ;;
  new_results_publisher ;;
  assign_logger ;;
  log DEBUG msg_initializing.

(** Lines 48-49. *)
Definition initialize : M unit :=
  call_hook (w_init cls) EInit ;;
  s <- get_self ;;
  log DEBUG (msg_initialized (name s)).

(** [self.task_checker] followed by an attribute or method lookup. *)
Definition the_checker : M TaskChecker :=
  s <- get_self ;;
  match task_checker s with
  | PyObj tc => ret tc
  | PyNone => raise AttributeError
  | Deleted => raise AttributeError
  end.

(** Line 55: [self.task_checker.check_for_update()]. *)
Definition poll : M bool :=
  tc <- the_checker ;;
  s <- get_self ;;
  w <- get_world ;;
  match check_for_update ext tc w with
  | (inl e, tc', w') =>
      put_self (with_task_checker s (PyObj tc')) ;; put_world w' ;;
      emit (ECheckForUpdate (PollRaised e)) ;; raise e
  | (inr false, tc', w') =>
      put_self (with_task_checker s (PyObj tc')) ;; put_world w' ;;
      emit (ECheckForUpdate NoUpdate) ;; ret false
  | (inr true, tc', w') =>
      put_self (with_task_checker s (PyObj tc')) ;; put_world w' ;;
      emit (ECheckForUpdate
              (NewMessage (header ext tc') (latest_data ext tc'))) ;;
      ret true
  end.

(** Line 73. *)
Definition do_sleep (p : Period) : M unit :=
  w <- get_world ;;
  let '(r, w') := sleep ext p w in
  put_world w' ;;
  emit (ESleep p r) ;;
  finish r.

Inductive Flow : Type := Continue | Break.

(** Lines 55-63. *)
Definition dispatch : M Flow :=
  new <- poll ;;
  if new then
    tc <- the_checker ;;
    if String.eqb (header ext tc) STOP_PROCESS then
      s <- get_self ;;
      log DEBUG (msg_stop (name s)) ;;
      ret Break
    else
      tc1 <- the_checker ;;
      tc2 <- the_checker ;;
      call_hook (w_update cls (header ext tc1) (latest_data ext tc2))
                (EUpdate (header ext tc1) (latest_data ext tc2)) ;;
      ret Continue
  else ret Continue.

(** Lines 66-73. *)
Definition work : M unit :=
  call_hook (w_step cls) EStep ;;
  call_hook (w_publish cls) EPublish ;;
  s <- get_self ;;
  match _loop_wait_period s with
  | Some p => do_sleep p
  | None => ret tt
  end.

(** One pass through the body of [while True]. *)
Definition iteration : M Flow :=
  flow <- dispatch ;;
  match flow with
  | Break => ret Break
  | Continue => work ;; ret Continue
  end.

(** Lines 51-73, for at most [fuel] iterations. *)
Fixpoint loop (fuel : nat) : M unit :=
  match fuel with
  | O => fun st => (Running, st)
  | S n =>
      flow <- iteration ;;
      match flow with
      | Break => ret tt
      | Continue => loop n
      end
  end.

(** Lines 33-73: the body of [try]. *)
Definition guarded (fuel : nat) : M unit :=
  setup ;; initialize ;; loop fuel.

(** Lines 75-80. *)
Definition on_crash (e : PyExc) : M unit :=
  let error := format_exc ext e in
  s <- get_self ;;
  log CRITICAL (msg_crashed (name s) error).

(** Line 86. *)
Definition do_checker_cleanup : M unit :=
  tc <- the_checker ;;
  s <- get_self ;;
  w <- get_world ;;
  let '(r, tc', w') := checker_cleanup ext tc w in
  put_self (with_task_checker s (PyObj tc')) ;;
  put_world w' ;;
  emit (ECheckerCleanup r) ;;
  finish r.

(** Line 87. *)
Definition del_task_checker : M unit :=
  s <- get_self ;;
  match task_checker s with
  | Deleted => raise AttributeError
  | _ => put_self (with_task_checker s Deleted) ;; emit EDelTaskChecker
  end.

(** Line 91. *)
Definition del_results_publisher : M unit :=
  s <- get_self ;;
  match results_publisher s with
  | Deleted => raise AttributeError
  | _ => put_self (with_results_publisher s Deleted) ;;
         emit EDelResultPublisher
  end.

(** Lines 84-88. *)
Definition release_checker : M unit :=
  s <- get_self ;;
  match task_checker s with
  | Deleted => raise AttributeError
  | PyNone => ret tt
  | PyObj _ =>
      log DEBUG (msg_cleaning_checker (name s)) ;;
      do_checker_cleanup ;;
      del_task_checker ;;
      s' <- get_self ;;
      log DEBUG (msg_cleaned_checker (name s'))
  end.

(** Lines 90-91. *)
Definition release_publisher : M unit :=
  s <- get_self ;;
  match results_publisher s with
  | Deleted => raise AttributeError
  | PyNone => ret tt
  | PyObj _ => del_results_publisher
  end.

(** Lines 84-96: the [finally] block, up to its [return]. *)
Definition teardown : M unit :=
  release_checker ;;
  release_publisher ;;
  s <- get_self ;;
  log DEBUG (msg_cleaning_up (name s)) ;;
  call_hook (w_cleanup cls) ECleanup ;;
  s' <- get_self ;;
  log DEBUG (msg_exiting (name s')).

(** Lines 32-97. *)
Definition run_from (fuel : nat) : M unit :=
  finally_return (try_except (guarded fuel) on_crash) teardown.

(** [run] on an object in a world; the loop is cut after [fuel]
    iterations, and the result is then [Running]. *)
Definition run (fuel : nat) (s : MPFProcess) (w : World)
  : Completion unit * Exec :=
  run_from fuel {| self := s; world := w; trace := [] |}.

End Supervisor.

Arguments Normal {A} a.
Arguments Raised {A} e.
Arguments Running {A}.
Arguments PollRaised {Data} e.
Arguments NoUpdate {Data}.
Arguments NewMessage {Data} h d.
Arguments EImport {Data Period} r.
Arguments ENewTaskChecker {Data Period} r.
Arguments ENewResultPublisher {Data Period} r.
Arguments ELog {Data Period} lvl msg.
Arguments EInit {Data Period} r.
Arguments ECheckForUpdate {Data Period} r.
Arguments EUpdate {Data Period} h d r.
Arguments EStep {Data Period} r.
Arguments EPublish {Data Period} r.
Arguments ESleep {Data Period} p r.
Arguments ECheckerCleanup {Data Period} r.
Arguments EDelTaskChecker {Data Period}.
Arguments EDelResultPublisher {Data Period}.
Arguments ECleanup {Data Period} r.
Arguments __init__ {Chan Mem Period TaskChecker ResultPublisher}
  process_name loop_wait_period.
Arguments get_self {Chan Mem Data Period TaskChecker ResultPublisher World}.
Arguments get_world {Chan Mem Data Period TaskChecker ResultPublisher World}.
Arguments the_checker
  {Chan Mem Data Period TaskChecker ResultPublisher World}.
Arguments release_publisher
  {Chan Mem Data Period TaskChecker ResultPublisher World}.
Arguments del_task_checker
  {Chan Mem Data Period TaskChecker ResultPublisher World}.
Arguments del_results_publisher
  {Chan Mem Data Period TaskChecker ResultPublisher World}.
Arguments assign_logger
  {Chan Mem Data Period TaskChecker ResultPublisher World}.

(** ** Reading a sequence of calls *)

Section Calls.

Variables Data Period : Type.

Definition is_cleanup (ev : Event Data Period) : bool :=
  match ev with
  | ECleanup _ => true
  | _ => false
  end.

(** How many times the worker's [cleanup] was called. *)
Definition cleanup_calls (evs : list (Event Data Period)) : nat :=
  length (filter is_cleanup evs).

(** The calls of the loop body: poll, [update], [step], [publish] and
    the sleep. *)
Definition is_loop_call (ev : Event Data Period) : bool :=
  match ev with
  | ECheckForUpdate _ | EUpdate _ _ _ | EStep _ | EPublish _ | ESleep _ _ =>
      true
  | _ => false
  end.

Definition no_loop_call (evs : list (Event Data Period)) : Prop :=
  Forall (fun ev => is_loop_call ev = false) evs.

(** [ev] is a call inside the [try] body, after the logger exists, that
    raised [e]: [init], the poll, [update], [step], [publish] or the
    sleep. *)
Definition failed_in_loop (ev : Event Data Period) (e : PyExc) : Prop :=
  ev = EInit (Some e) \/
  ev = ECheckForUpdate (PollRaised e) \/
  (exists h d, ev = EUpdate h d (Some e)) \/
  ev = EStep (Some e) \/
  ev = EPublish (Some e) \/
  (exists p, ev = ESleep p (Some e)).

(** [ev] is a call of lines 35-42 that raised [e]. *)
Definition failed_in_setup (ev : Event Data Period) (e : PyExc) : Prop :=
  ev = EImport (Some e) \/
  ev = ENewTaskChecker (Some e) \/
  ev = ENewResultPublisher (Some e).

(** The reader's [cleanup] raised somewhere in [evs]. *)
Definition checker_cleanup_failed (evs : list (Event Data Period)) : Prop :=
  exists e, In (ECheckerCleanup (Some e)) evs.

(** The same, as a test on one call. *)
Definition checker_cleanup_raised (ev : Event Data Period) : bool :=
  match ev with
  | ECheckerCleanup (Some _) => true
  | _ => false
  end.

(** The poll of a completed iteration: a message other than the stop
    request, or nothing new. *)
Definition goes_on (p : Poll Data) : Prop :=
  match p with
  | PollRaised _ => False
  | NoUpdate => True
  | NewMessage h _ => h <> STOP_PROCESS
  end.

Definition update_of (p : Poll Data) : list (Event Data Period) :=
  match p with
  | NewMessage h d => [EUpdate h d None]
  | _ => []
  end.

Definition sleep_of (period : option Period) : list (Event Data Period) :=
  match period with
  | Some p => [ESleep p None]
  | None => []
  end.

(** Calls of [init]. *)
Definition is_init_call (ev : Event Data Period) : bool :=
  match ev with
  | EInit _ => true
  | _ => false
  end.

(** The crash report of lines 78-80. *)
Definition is_crash_report (ev : Event Data Period) : bool :=
  match ev with
  | ELog CRITICAL _ => true
  | _ => false
  end.

(** Calls of [publish], and calls of [step] that returned. *)
Definition is_publish_call (ev : Event Data Period) : bool :=
  match ev with
  | EPublish _ => true
  | _ => false
  end.

Definition is_step_return (ev : Event Data Period) : bool :=
  match ev with
  | EStep None => true
  | _ => false
  end.

(** The messages handed to [update], in order. *)
Definition delivered (evs : list (Event Data Period))
  : list (string * Data) :=
  flat_map (fun ev => match ev with
                      | EUpdate h d _ => [(h, d)]
                      | _ => []
                      end) evs.

(** The messages the polls found, the stop request left out, in order. *)
Definition received (evs : list (Event Data Period))
  : list (string * Data) :=
  flat_map (fun ev => match ev with
                      | ECheckForUpdate (NewMessage h d) =>
                          if String.eqb h STOP_PROCESS then [] else [(h, d)]
                      | _ => []
                      end) evs.

(** A sleep is for the configured period. *)
Definition sleeps_for (period : option Period) (ev : Event Data Period)
  : Prop :=
  match ev with
  | ESleep p _ => period = Some p
  | _ => True
  end.

(** The reader is touched neither by its [cleanup] nor by [del]. *)
Definition touches_reader (ev : Event Data Period) : bool :=
  match ev with
  | ECheckerCleanup _ | EDelTaskChecker => true
  | _ => false
  end.

End Calls.

Arguments is_cleanup {Data Period} ev.
Arguments cleanup_calls {Data Period} evs.
Arguments is_loop_call {Data Period} ev.
Arguments no_loop_call {Data Period} evs.
Arguments failed_in_loop {Data Period} ev e.
Arguments failed_in_setup {Data Period} ev e.
Arguments checker_cleanup_failed {Data Period} evs.
Arguments checker_cleanup_raised {Data Period} ev.
Arguments is_init_call {Data Period} ev.
Arguments is_crash_report {Data Period} ev.
Arguments is_publish_call {Data Period} ev.
Arguments is_step_return {Data Period} ev.
Arguments delivered {Data Period} evs.
Arguments received {Data Period} evs.
Arguments sleeps_for {Data Period} period ev.
Arguments touches_reader {Data Period} ev.
Arguments goes_on {Data} p.
Arguments update_of {Data Period} p.
Arguments sleep_of {Data Period} period.

(** ** A scripted parent process

  The world is the list of what the coming polls will find; the reader
  keeps the last message.  Faults can be switched on one by one. *)
Module Scenario.

Definition Message : Type := (string * nat)%type.
Definition Inbox : Type := list (option Message).

Record Faults : Type := mkFaults {
  import_fails : bool;
  checker_fails : bool;
  publisher_fails : bool;
  checker_cleanup_fails : bool
}.

Definition no_faults : Faults := mkFaults false false false false.

Definition describe (e : PyExc) : string :=
  match e with
  | NotImplementedError => "NotImplementedError"
  | AttributeError => "AttributeError"
  | Exception what => "Exception: " ++ what
  end.

Definition parent (f : Faults)
  : Externals unit nat nat Message unit Inbox :=
  {| import_modules := fun w =>
       (if import_fails f then Some (Exception "import") else None, w);
     MPFTaskChecker := fun _ _ w =>
       (if checker_fails f then inl (Exception "pipe") else inr ("", 0), w);
     MPFResultPublisher := fun _ _ w =>
       (if publisher_fails f then inl (Exception "pipe") else inr tt, w);
     check_for_update := fun tc w =>
       match w with
       | [] => (inr false, tc, [])
       | None :: w' => (inr false, tc, w')
       | Some m :: w' => (inr true, m, w')
       end;
     header := fst;
     latest_data := snd;
     checker_cleanup := fun tc w =>
       (if checker_cleanup_fails f then Some (Exception "closed") else None,
        tc, w);
     sleep := fun _ w => (None, w);
     format_exc := describe |}.

Definition Obj : Type := MPFProcess unit nat nat Message unit.
Definition Method : Type := Hook unit nat nat Message unit Inbox.

Definition quiet : Method :=
  fun s w => {| raised := None;
                memory_after := shared_memory s;
                world_after := w |}.

(** A hook that fails when [n] polls are left in the script. *)
Definition fails_at (n : nat) : Method :=
  fun s w => {| raised := if Nat.eqb (length w) n
                          then Some (Exception "boom") else None;
                memory_after := shared_memory s;
                world_after := w |}.

Definition failing : Method := fails_at 0.

(** A hook that counts its calls in the shared memory handle. *)
Definition counting : Method :=
  fun s w => {| raised := None;
                memory_after :=
                  match shared_memory s with
                  | Some n => Some (S n)
                  | None => Some 1
                  end;
                world_after := w |}.

Definition worker : Worker unit nat nat nat Message unit Inbox :=
  {| w_init := quiet; w_update := fun _ _ => quiet; w_step := quiet;
     w_publish := quiet; w_cleanup := quiet |}.

Definition worker_bad_init : Worker unit nat nat nat Message unit Inbox :=
  {| w_init := failing; w_update := fun _ _ => quiet; w_step := quiet;
     w_publish := quiet; w_cleanup := quiet |}.

Definition worker_bad_step (n : nat)
  : Worker unit nat nat nat Message unit Inbox :=
  {| w_init := quiet; w_update := fun _ _ => quiet; w_step := fails_at n;
     w_publish := quiet; w_cleanup := quiet |}.

Definition worker_bad_cleanup
  : Worker unit nat nat nat Message unit Inbox :=
  {| w_init := quiet; w_update := fun _ _ => quiet; w_step := quiet;
     w_publish := quiet; w_cleanup := failing |}.

Definition worker_counting : Worker unit nat nat nat Message unit Inbox :=
  {| w_init := quiet; w_update := fun _ _ => quiet; w_step := counting;
     w_publish := quiet; w_cleanup := quiet |}.

(** A subclass that forgot [step]. *)
Definition no_step : Subclass unit nat nat nat Message unit Inbox :=
  {| def_init := Some quiet; def_update := Some (fun _ _ => quiet);
     def_step := None; def_publish := Some quiet;
     def_cleanup := Some quiet |}.

Definition w1 : Obj := __init__ "w1" None.

Definition stop : option Message := Some (STOP_PROCESS, 0).

(** The object once lines 41-44 have run. *)
Definition started : Obj :=
  {| _out := None; _inp := None; _loop_wait_period := Some 3;
     name := "w1"; shared_memory := None;
     task_checker := PyObj ("", 0); results_publisher := PyObj tt;
     _MPFLog := Some (getLogger "MPFLogger") |}.

Definition at_loop (inbox : Inbox)
  : Exec unit nat nat nat Message unit Inbox :=
  {| self := started; world := inbox; trace := [] |}.

Definition count (m : option nat) : nat :=
  match m with
  | Some n => n
  | None => 0
  end.

Definition cleanup_faulty : Faults := mkFaults false false false true.
Definition checker_faulty : Faults := mkFaults false true false false.
Definition publisher_faulty : Faults := mkFaults false false true false.

End Scenario.

(** ** Properties of the supervisor *)

Section Properties.

Context {Chan Mem Data Period TaskChecker ResultPublisher World : Type}.

Local Open Scope list_scope.

Local Abbreviation Object := (MPFProcess Chan Mem Period TaskChecker ResultPublisher).
Local Abbreviation State :=
  (Exec Chan Mem Data Period TaskChecker ResultPublisher World).
Local Abbreviation Call := (Event Data Period).

Variable ext : Externals Chan Data Period TaskChecker ResultPublisher World.
Variable cls : Worker Chan Mem Data Period TaskChecker ResultPublisher World.

(** [st] with [evs] added to its calls. *)
Definition push (st : State) (evs : list Call) : State :=
  {| self := self st; world := world st; trace := trace st ++ evs |}.

(** A call of the [try] body that returned, other than a poll that found
    the stop request. *)
Definition calm (ev : Call) : bool :=
  match ev with
  | EImport None | ENewTaskChecker None | ENewResultPublisher None
  | EInit None | EStep None | EPublish None | ESleep _ None
  | ELog DEBUG _ | ECheckForUpdate NoUpdate => true
  | ECheckForUpdate (NewMessage h _) => negb (String.eqb h STOP_PROCESS)
  | EUpdate h _ None => negb (String.eqb h STOP_PROCESS)
  | _ => false
  end.

(** A call the [finally] block makes. *)
Definition in_teardown (ev : Call) : bool :=
  match ev with
  | ELog DEBUG _ | ECheckerCleanup _ | EDelTaskChecker
  | EDelResultPublisher | ECleanup _ => true
  | _ => false
  end.

(** The logger and both i/o helpers are in place. *)
Definition ready (st : State) : Prop :=
  (exists lg, _MPFLog (self st) = Some lg) /\
  (exists tc, task_checker (self st) = PyObj tc) /\
  (exists rp, results_publisher (self st) = PyObj rp).

Ltac unfold_monad :=
  unfold bind, ret, raise, emit, get_self, put_self, get_world, put_world,
    finish in *.

Ltac unfold_run :=
  unfold run, run_from, finally_return, try_except, guarded, on_crash,
    teardown, release_checker, release_publisher, del_task_checker,
    del_results_publisher, do_checker_cleanup, setup, imports,
    new_task_checker, new_results_publisher, assign_logger, initialize,
    iteration, dispatch, work, poll, do_sleep, the_checker, call_hook, log
    in *;
  unfold_monad.

(** The calls of lines 35-45 when nothing fails. *)
Definition setup_calls : list Call :=
  [EImport None; ENewTaskChecker None; ENewResultPublisher None;
   ELog DEBUG msg_initializing].

(** The calls up to the first iteration when [init] returns. *)
Definition entered (n : string) : list Call :=
  setup_calls ++ [EInit None; ELog DEBUG (msg_initialized n)].

(** A call of a hook, the poll or the sleep that raised. *)
Definition crashes (ev : Call) : bool :=
  match ev with
  | EInit (Some _) | ECheckForUpdate (PollRaised _) | EUpdate _ _ (Some _)
  | EStep (Some _) | EPublish (Some _) | ESleep _ (Some _) => true
  | _ => false
  end.

(** A poll that found the stop request. *)
Definition is_stop_poll (ev : Call) : bool :=
  match ev with
  | ECheckForUpdate (NewMessage h _) => String.eqb h STOP_PROCESS
  | _ => false
  end.

(** A call of [update] with the stop request as header. *)
Definition sentinel_update (ev : Call) : bool :=
  match ev with
  | EUpdate h _ _ => String.eqb h STOP_PROCESS
  | _ => false
  end.

(** Lines 84-88 when the reader's [cleanup] returns. *)
Definition reader_release (n : string) (tc : Attr TaskChecker) : list Call :=
  match tc with
  | PyObj _ =>
      [ELog DEBUG (msg_cleaning_checker n); ECheckerCleanup None;
       EDelTaskChecker; ELog DEBUG (msg_cleaned_checker n)]
  | _ => []
  end.

(** Lines 90-91. *)
Definition publisher_release (rp : Attr ResultPublisher) : list Call :=
  match rp with
  | PyObj _ => [EDelResultPublisher]
  | _ => []
  end.

(** Lines 93-96, [rc] being what the worker's [cleanup] gave back. *)
Definition worker_release (n : string) (rc : option PyExc) : list Call :=
  [ELog DEBUG (msg_cleaning_up n); ECleanup rc] ++
  match rc with
  | None => [ELog DEBUG (msg_exiting n)]
  | Some _ => []
  end.

(** An attribute after [if x is not None: del x]. *)
Definition dropped {A : Type} (a : Attr A) : Attr A :=
  match a with
  | PyObj _ => Deleted
  | other => other
  end.

(** An attribute that holds no object any more. *)
Definition released {A : Type} (a : Attr A) : Prop :=
  match a with
  | PyObj _ => False
  | _ => True
  end.

(** The calls of the worker's hooks. *)
Definition is_hook_call (ev : Call) : bool :=
  match ev with
  | EInit _ | EUpdate _ _ _ | EStep _ | EPublish _ | ECleanup _ => true
  | _ => false
  end.

(** The hooks of the class, each with the call it is recorded as. *)
Inductive is_hook : Hook Chan Mem Period TaskChecker ResultPublisher World ->
                    (option PyExc -> Call) -> Prop :=
| hook_init : is_hook (w_init cls) EInit
| hook_update (h : string) (d : Data) :
    is_hook (w_update cls h d) (EUpdate h d)
| hook_step : is_hook (w_step cls) EStep
| hook_publish : is_hook (w_publish cls) EPublish
| hook_cleanup : is_hook (w_cleanup cls) ECleanup.

(** The recorded outcome of a hook is what the class's method gave. *)
Definition genuine (ev : Call) : Prop :=
  match ev with
  | EInit r => exists s w, r = raised (w_init cls s w)
  | EUpdate h d r => exists s w, r = raised (w_update cls h d s w)
  | EStep r => exists s w, r = raised (w_step cls s w)
  | EPublish r => exists s w, r = raised (w_publish cls s w)
  | ECleanup r => exists s w, r = raised (w_cleanup cls s w)
  | _ => True
  end.

(** A block preserves a property of the state, however it ends. *)
Definition keeps (Inv : State -> Prop) {A : Type}
  (m : M Chan Mem Data Period TaskChecker ResultPublisher World A) : Prop :=
  forall st, Inv st -> Inv (snd (m st)).

(** Every hook moves the shared memory handle along [R]. *)
Definition hooks_follow (R : option Mem -> option Mem -> Prop) : Prop :=
  forall h ev, is_hook h ev ->
  forall s w, R (shared_memory s) (memory_after (h s w)).

(** Two objects that differ at most in the shared memory handle. *)
Definition alike (s1 s2 : Object) : Prop :=
  _out s1 = _out s2 /\ _inp s1 = _inp s2 /\
  _loop_wait_period s1 = _loop_wait_period s2 /\ name s1 = name s2 /\
  task_checker s1 = task_checker s2 /\
  results_publisher s1 = results_publisher s2 /\ _MPFLog s1 = _MPFLog s2.

Definition alike_states (st1 st2 : State) : Prop :=
  alike (self st1) (self st2) /\ world st1 = world st2 /\
  trace st1 = trace st2.

(** Two blocks that end alike when started alike. *)
Definition agree {A : Type}
  (m1 m2 : M Chan Mem Data Period TaskChecker ResultPublisher World A)
  : Prop :=
  forall st1 st2,
    alike_states st1 st2 ->
    fst (m1 st1) = fst (m2 st2) /\ alike_states (snd (m1 st1)) (snd (m2 st2)).

(** No hook lets the shared memory handle decide whether it raises or what
    it does to the world. *)
Definition hooks_blind : Prop :=
  forall h ev, is_hook h ev ->
  forall s1 s2 w, alike s1 s2 ->
    raised (h s1 w) = raised (h s2 w) /\
    world_after (h s1 w) = world_after (h s2 w).

(** The [finally] block started in [st] ends as [r] after the calls [td]. *)
Definition finished (st : State) (r : Completion unit) (td : list Call)
  : Prop :=
  exists st', teardown ext cls st = (r, st') /\ trace st' = trace st ++ td.

(** What the crash handler logs for [e]. *)
Definition crash_log (n : string) (e : PyExc) : Call :=
  ELog CRITICAL (msg_crashed n (format_exc ext e)).

(** The five courses a call of [run] on [s] can take, with the calls made
    and the way [run] ends. *)
Inductive Outline (s : Object) (r : Completion unit) (evs : list Call)
  : Prop :=
| still_running (work : list Call) :
    r = Running ->
    evs = entered (name s) ++ work ->
    Forall (fun ev => calm ev = true) work ->
    Outline s r evs
| setup_failed (pre : list Call) (ev : Call) (e : PyExc)
    (td : list Call) (st : State) :
    failed_in_setup ev e ->
    pre = [] \/ pre = [EImport None] \/
      pre = [EImport None; ENewTaskChecker None] ->
    evs = pre ++ ev ::
            match _MPFLog s with
            | Some _ => [crash_log (name s) e]
            | None => []
            end ++ td ->
    _MPFLog (self st) = _MPFLog s ->
    finished st r td ->
    Outline s r evs
| init_failed (e : PyExc) (td : list Call) (st : State) :
    evs = setup_calls ++ EInit (Some e) :: crash_log (name s) e :: td ->
    ready st ->
    name (self st) = name s ->
    finished st r td ->
    Outline s r evs
| loop_failed (work : list Call) (ev : Call) (e : PyExc)
    (td : list Call) (st : State) :
    evs = entered (name s) ++ work ++ ev :: crash_log (name s) e :: td ->
    Forall (fun ev => calm ev = true) work ->
    failed_in_loop ev e ->
    is_loop_call ev = true ->
    sentinel_update ev = false ->
    ready st ->
    name (self st) = name s ->
    finished st r td ->
    Outline s r evs
| stopped (work : list Call) (d : Data) (td : list Call) (st : State) :
    evs = entered (name s) ++ work ++
            ECheckForUpdate (NewMessage STOP_PROCESS d) ::
            ELog DEBUG (msg_stop (name s)) :: td ->
    Forall (fun ev => calm ev = true) work ->
    ready st ->
    name (self st) = name s ->
    finished st r td ->
    Outline s r evs.

(** Case analysis on whatever the code branches on next. *)
Ltac branch :=
  match goal with
  | |- context [match ?x with _ => _ end] =>
      lazymatch x with
      | context [match _ with _ => _ end] => fail
      | _ => destruct x eqn:?
      end
  end.

(** *** Straight-line parts of [run] *)

Ltac crunch :=
  unfold_run; simpl; repeat (branch; simpl in *; try congruence).

Ltac tidy := repeat rewrite <- app_assoc; simpl.

Ltac ready_split H :=
  let lg := fresh "lg" in
  let tc := fresh "tc" in
  let rp := fresh "rp" in
  let Hlg := fresh "Hlg" in
  let Htc := fresh "Htc" in
  let Hrp := fresh "Hrp" in
  destruct H as [[lg Hlg] [[tc Htc] [rp Hrp]]].

Lemma setup_cases (st : State) :
  (exists st',
      setup ext st = (Normal tt, st') /\
      trace st' = trace st ++ setup_calls /\
      ready st' /\ name (self st') = name (self st)) \/
  (exists e st' pre ev,
      setup ext st = (Raised e, st') /\
      trace st' = trace st ++ pre ++ [ev] /\
      failed_in_setup ev e /\
      (pre = [] \/ pre = [EImport None] \/
       pre = [EImport None; ENewTaskChecker None]) /\
      _MPFLog (self st') = _MPFLog (self st) /\
      name (self st') = name (self st)).
Proof.
  unfold ready, failed_in_setup, setup_calls.
  crunch; tidy.
  - right. exists p. eexists. exists [], (EImport (Some p)).
    simpl. repeat split; simpl; eauto.
  - right. exists p. eexists.
    exists [EImport None], (ENewTaskChecker (Some p)).
    simpl. repeat split; simpl; eauto.
  - right.
    exists p. eexists.
    exists [EImport None; ENewTaskChecker None],
      (ENewResultPublisher (Some p)).
    simpl. repeat split; simpl; eauto.
  - left. eexists. simpl. repeat split; simpl; eauto.
Qed.

Lemma initialize_cases (st : State) :
  ready st ->
  (exists st',
      initialize cls st = (Normal tt, st') /\
      trace st' =
        trace st ++ [EInit None; ELog DEBUG (msg_initialized (name (self st)))] /\
      ready st' /\ name (self st') = name (self st)) \/
  (exists e st',
      initialize cls st = (Raised e, st') /\
      trace st' = trace st ++ [EInit (Some e)] /\
      ready st' /\ name (self st') = name (self st)).
Proof.
  intros H. ready_split H. unfold ready.
  crunch; tidy.
  - right. eexists _, _. simpl. repeat split; simpl; eauto.
  - left. eexists. simpl. repeat split; simpl; eauto.
Qed.

Lemma on_crash_logged (e : PyExc) (st : State) (lg : Logger) :
  _MPFLog (self st) = Some lg ->
  on_crash ext e st = (Normal tt, push st [crash_log (name (self st)) e]).
Proof.
  intros H. unfold crash_log, push. crunch.
Qed.

Lemma on_crash_unlogged (e : PyExc) (st : State) :
  _MPFLog (self st) = None ->
  on_crash ext e st = (Raised AttributeError, st).
Proof.
  intros H. crunch.
Qed.

(** *** One iteration, then the loop *)

Ltac stop_seen :=
  repeat match goal with
         | H : String.eqb _ _ = true |- _ =>
             apply String.eqb_eq in H; rewrite H in *
         end.

(** Name the last call of an explicit list of calls. *)
Ltac name_last :=
  first
    [ exists []; eexists; split; [reflexivity | split; [reflexivity | ] ]
    | eexists [_]; eexists; split; [reflexivity | split; [reflexivity | ] ]
    | eexists [_; _]; eexists;
      split; [reflexivity | split; [reflexivity | ] ]
    | eexists [_; _; _]; eexists;
      split; [reflexivity | split; [reflexivity | ] ]
    | eexists [_; _; _; _]; eexists;
      split; [reflexivity | split; [reflexivity | ] ] ].

Ltac all_calm :=
  repeat constructor; simpl;
  repeat match goal with
         | H : String.eqb _ _ = false |- _ => rewrite H
         end;
  reflexivity.

Lemma iteration_cases (st : State) :
  ready st ->
  (exists st' evs,
      iteration ext cls st = (Normal Continue, st') /\
      trace st' = trace st ++ evs /\
      Forall (fun ev => calm ev = true) evs /\
      ready st' /\ name (self st') = name (self st)) \/
  (exists st' d,
      iteration ext cls st = (Normal Break, st') /\
      trace st' =
        trace st ++ [ECheckForUpdate (NewMessage STOP_PROCESS d);
                     ELog DEBUG (msg_stop (name (self st)))] /\
      ready st' /\ name (self st') = name (self st)) \/
  (exists e st',
      exists pre ev,
        iteration ext cls st = (Raised e, st') /\
        trace st' = trace st ++ pre ++ [ev] /\
        Forall (fun ev => calm ev = true) pre /\
        failed_in_loop ev e /\
        is_loop_call ev = true /\
        sentinel_update ev = false /\
        ready st' /\ name (self st') = name (self st)).
Proof.
  intros H. ready_split H. unfold ready, failed_in_loop.
  crunch; tidy; stop_seen.
  all: first
    [ left; do 2 eexists;
      split; [reflexivity | split; [reflexivity | ] ];
      split; [all_calm | simpl; repeat split; eauto ]; fail
    | right; left; do 2 eexists;
      split; [reflexivity | split; [reflexivity | ] ];
      simpl; repeat split; eauto; fail
    | right; right; do 2 eexists; name_last;
      split; [all_calm | ];
      split; [eauto 12 | ];
      split; [reflexivity | ];
      split; [simpl; try assumption; reflexivity | ];
      simpl; repeat split; eauto ].
Qed.

Ltac conjs := repeat match goal with |- _ /\ _ => split end.

Lemma loop_step (n : nat) (st : State) :
  loop ext cls (S n) st =
    match iteration ext cls st with
    | (Normal Continue, st') => loop ext cls n st'
    | (Normal Break, st') => (Normal tt, st')
    | (Raised e, st') => (Raised e, st')
    | (Running, st') => (Running, st')
    end.
Proof.
  simpl. unfold bind, ret.
  destruct (iteration ext cls st) as [[[ | ] | e | ] st']; reflexivity.
Qed.

Lemma loop_cases (n : nat) :
  forall st : State,
    ready st ->
    (exists st' work,
        loop ext cls n st = (Running, st') /\
        trace st' = trace st ++ work /\
        Forall (fun ev => calm ev = true) work) \/
    (exists st' work d,
        loop ext cls n st = (Normal tt, st') /\
        trace st' =
          trace st ++ work ++
            [ECheckForUpdate (NewMessage STOP_PROCESS d);
             ELog DEBUG (msg_stop (name (self st)))] /\
        Forall (fun ev => calm ev = true) work /\
        ready st' /\ name (self st') = name (self st)) \/
    (exists e st',
        exists work ev,
          loop ext cls n st = (Raised e, st') /\
          trace st' = trace st ++ work ++ [ev] /\
          Forall (fun ev => calm ev = true) work /\
          failed_in_loop ev e /\
          is_loop_call ev = true /\
          sentinel_update ev = false /\
          ready st' /\ name (self st') = name (self st)).
Proof.
  induction n as [ | n IH]; intros st Hready.
  - left. exists st, []. simpl. rewrite app_nil_r. auto.
  - rewrite loop_step.
    destruct (iteration_cases Hready)
      as [ (st1 & evs & Hit & Htr & Hcalm & Hr1 & Hname)
         | [ (st1 & d & Hit & Htr & Hr1 & Hname)
           | (e & st1 & pre & ev & Hit & Htr & Hcalm & Hrest) ] ];
      rewrite Hit.
    + destruct (IH st1 Hr1)
        as [ (st2 & work & Hl & Htr2 & Hcalm2)
           | [ (st2 & work & d & Hl & Htr2 & Hcalm2 & Hr2 & Hname2)
             | (e & st2 & work & ev & Hl & Htr2 & Hcalm2 & Hfail & Hcall
                  & Hupd & Hr2 & Hname2) ] ].
      * left. exists st2, (evs ++ work).
        rewrite Hl, Htr2, Htr, app_assoc.
        conjs; auto. apply Forall_app; auto.
      * right; left. exists st2, (evs ++ work), d.
        rewrite Hl, Htr2, Htr, Hname, <- !app_assoc.
        conjs; auto; try congruence. apply Forall_app; auto.
      * right; right. exists e, st2, (evs ++ work), ev.
        rewrite Hl, Htr2, Htr, <- !app_assoc.
        conjs; auto; try congruence. apply Forall_app; auto.
    + right; left. exists st1, [], d. simpl. auto.
    + right; right. exists e, st1, pre, ev. auto.
Qed.

(** *** The whole of [run] *)

Lemma teardown_finishes (st : State) :
  exists r td, finished st r td.
Proof.
  unfold finished.
  destruct (teardown ext cls st) as [r st'] eqn:Htd.
  assert (exists td, trace st' = trace st ++ td) as [td Htr].
  { replace st' with (snd (teardown ext cls st)) by (rewrite Htd; reflexivity).
    clear Htd. crunch; tidy.
    all: first [ exists []; symmetry; apply app_nil_r
               | eexists; reflexivity ]. }
  exists r, td, st'. auto.
Qed.

Lemma run_unfold (fuel : nat) (s : Object) (w : World) :
  run ext cls fuel s w =
    let st0 := {| self := s; world := w; trace := [] |} in
    match setup ext st0 with
    | (Normal _, st1) =>
        match initialize cls st1 with
        | (Normal _, st2) =>
            match loop ext cls fuel st2 with
            | (Normal _, st3) => teardown ext cls st3
            | (Raised e, st3) =>
                teardown ext cls (snd (on_crash ext e st3))
            | (Running, st3) => (Running, st3)
            end
        | (Raised e, st2) => teardown ext cls (snd (on_crash ext e st2))
        | (Running, st2) => (Running, st2)
        end
    | (Raised e, st1) => teardown ext cls (snd (on_crash ext e st1))
    | (Running, st1) => (Running, st1)
    end.
Proof.
  unfold run, run_from, finally_return, try_except, guarded, bind. simpl.
  destruct (setup ext _) as [[[] | e | ] st1]; try reflexivity.
  - destruct (initialize cls st1) as [[[] | e | ] st2]; try reflexivity.
    + destruct (loop ext cls fuel st2) as [[[] | e | ] st3]; try reflexivity.
      destruct (on_crash ext e st3) as [[[] | e' | ] st4] eqn:Hc;
        try reflexivity.
      revert Hc. crunch.
    + destruct (on_crash ext e st2) as [[[] | e' | ] st4] eqn:Hc;
        try reflexivity.
      revert Hc. crunch.
  - destruct (on_crash ext e st1) as [[[] | e' | ] st4] eqn:Hc;
      try reflexivity.
    revert Hc. crunch.
Qed.

Lemma ready_push (st : State) (evs : list Call) :
  ready st -> ready (push st evs).
Proof.
  unfold ready, push. simpl. auto.
Qed.

Lemma run_outline (fuel : nat) (s : Object) (w : World) :
  Outline s (fst (run ext cls fuel s w)) (trace (snd (run ext cls fuel s w))).
Proof.
  rewrite run_unfold. cbv zeta.
  set (st0 := {| self := s; world := w; trace := [] |}).
  destruct (setup_cases st0)
    as [ (st1 & Hs & Htr1 & Hr1 & Hn1)
       | (e & st1 & pre & ev & Hs & Htr1 & Hfail & Hpre & Hlog1 & Hn1) ];
    rewrite Hs; simpl in Htr1, Hn1.
  - destruct (initialize_cases Hr1)
      as [ (st2 & Hi & Htr2 & Hr2 & Hn2)
         | (e & st2 & Hi & Htr2 & Hr2 & Hn2) ];
      rewrite Hi.
    + destruct (loop_cases fuel Hr2)
        as [ (st3 & work & Hl & Htr3 & Hcalm)
           | [ (st3 & work & d & Hl & Htr3 & Hcalm & Hr3 & Hn3)
             | (e & st3 & work & ev & Hl & Htr3 & Hcalm & Hfail & Hcall
                  & Hupd & Hr3 & Hn3) ] ];
        rewrite Hl.
      * apply still_running with (work := work); simpl; auto.
        rewrite Htr3, Htr2, Htr1, Hn1. unfold entered.
        rewrite <- !app_assoc. reflexivity.
      * destruct (teardown_finishes st3) as (r & td & st4 & Htd & Htr4).
        rewrite Htd. simpl.
        apply stopped with (work := work) (d := d) (td := td) (st := st3);
          auto; try congruence.
        -- rewrite Htr4, Htr3, Htr2, Htr1, Hn2, Hn1. unfold entered.
           rewrite <- !app_assoc. reflexivity.
        -- exists st4. auto.
      * destruct Hr3 as [[lg Hlg] Hrest].
        rewrite (on_crash_logged e st3 Hlg). simpl.
        destruct (teardown_finishes (push st3 [crash_log (name (self st3)) e]))
          as (r & td & st4 & Htd & Htr4).
        rewrite Htd. simpl.
        apply loop_failed
          with (work := work) (ev := ev) (e := e) (td := td)
               (st := push st3 [crash_log (name (self st3)) e]);
          auto; try (simpl; congruence).
        -- rewrite Htr4. simpl. rewrite Htr3, Htr2, Htr1.
           replace (name (self st3)) with (name s) by congruence.
           rewrite Hn1. unfold entered.
           rewrite <- !app_assoc. reflexivity.
        -- apply ready_push. split; eauto.
        -- exists st4. auto.
    + destruct Hr2 as [[lg Hlg] Hrest].
      rewrite (on_crash_logged e st2 Hlg). simpl.
      destruct (teardown_finishes (push st2 [crash_log (name (self st2)) e]))
        as (r & td & st4 & Htd & Htr4).
      rewrite Htd. simpl.
      apply init_failed
        with (e := e) (td := td)
             (st := push st2 [crash_log (name (self st2)) e]);
        auto; try (simpl; congruence).
      * rewrite Htr4. simpl. rewrite Htr2, Htr1.
        replace (name (self st2)) with (name s) by congruence.
        rewrite <- !app_assoc. reflexivity.
      * apply ready_push. split; eauto.
      * exists st4. auto.
  - simpl in Hlog1.
    destruct (_MPFLog s) as [lg | ] eqn:Hlog.
    + rewrite (on_crash_logged e st1 Hlog1). simpl.
      destruct (teardown_finishes (push st1 [crash_log (name (self st1)) e]))
        as (r & td & st4 & Htd & Htr4).
      rewrite Htd. simpl.
      apply setup_failed
        with (pre := pre) (ev := ev) (e := e) (td := td)
             (st := push st1 [crash_log (name (self st1)) e]);
        auto; try (simpl; congruence).
      * rewrite Htr4. simpl. rewrite Htr1, Hlog, Hn1.
        rewrite <- !app_assoc. reflexivity.
      * exists st4. auto.
    + rewrite (on_crash_unlogged e st1 Hlog1). simpl.
      destruct (teardown_finishes st1) as (r & td & st4 & Htd & Htr4).
      rewrite Htd. simpl.
      apply setup_failed
        with (pre := pre) (ev := ev) (e := e) (td := td) (st := st1);
        auto; try (simpl; congruence).
      * rewrite Htr4, Htr1, Hlog. rewrite <- !app_assoc. reflexivity.
      * exists st4. auto.
Qed.

(** *** The [finally] block *)

Lemma app_same_nil (A : Type) (l x : list A) : l = l ++ x -> x = [].
Proof.
  intros H. apply (app_inv_head l). rewrite app_nil_r. auto.
Qed.

(** Every way through the [finally] block, with its calls spelled out. *)
Ltac teardown_cases H :=
  let st' := fresh "st'" in
  let Htd := fresh "Htd" in
  let Htr := fresh "Htr" in
  destruct H as (st' & Htd & Htr);
  revert Htd; crunch; intros Htd; inversion Htd; subst; clear Htd;
  simpl in Htr; repeat rewrite <- app_assoc in Htr; simpl in Htr;
  first [ apply app_inv_head in Htr | apply app_same_nil in Htr ];
  subst.

Lemma teardown_calls (st : State) (r : Completion unit) (td : list Call) :
  finished st r td -> Forall (fun ev => in_teardown ev = true) td.
Proof.
  intros H. teardown_cases H; repeat constructor.
Qed.

Lemma teardown_at_most_once
  (st : State) (r : Completion unit) (td : list Call) :
  finished st r td -> cleanup_calls td <= 1.
Proof.
  intros H. teardown_cases H; unfold cleanup_calls; simpl; lia.
Qed.

Lemma teardown_once (st : State) (r : Completion unit) (td : list Call) :
  ready st ->
  finished st r td ->
  ~ checker_cleanup_failed td ->
  cleanup_calls td = 1.
Proof.
  intros Hr H Hok. ready_split Hr.
  teardown_cases H; try reflexivity.
  exfalso. apply Hok. eexists. simpl. eauto.
Qed.

Lemma teardown_unlogged (st : State) (r : Completion unit) (td : list Call) :
  _MPFLog (self st) = None ->
  finished st r td ->
  r = Raised AttributeError /\ cleanup_calls td = 0.
Proof.
  intros Hlog H. teardown_cases H; auto.
Qed.

Lemma teardown_failure_last
  (st : State) (r : Completion unit) (td : list Call) (ev : Call) (e : PyExc) :
  finished st r td ->
  In ev td ->
  ev = ECheckerCleanup (Some e) \/ ev = ECleanup (Some e) ->
  r = Raised e /\ exists pre, td = pre ++ [ev].
Proof.
  intros H Hin Hev.
  teardown_cases H; destruct Hev; subst ev; simpl in Hin;
    repeat match goal with
           | H : _ \/ _ |- _ => destruct H
           | H : False |- _ => destruct H
           end;
    try discriminate.
  all: repeat match goal with
              | H : ECheckerCleanup _ = ECheckerCleanup _ |- _ =>
                  injection H as H
              | H : ECleanup _ = ECleanup _ |- _ => injection H as H
              | H : Some _ = Some _ |- _ => injection H as H
              | H : None = Some _ |- _ => discriminate H
              end.
  all: subst.
  all: split; [reflexivity | ].
  all: first [ exists []; reflexivity
             | eexists [_]; reflexivity
             | eexists [_; _]; reflexivity
             | eexists [_; _; _]; reflexivity
             | eexists [_; _; _; _]; reflexivity
             | eexists [_; _; _; _; _]; reflexivity
             | eexists [_; _; _; _; _; _]; reflexivity ].
Qed.

(** *** Facts about sequences of calls *)

Lemma cleanup_calls_app (a b : list Call) :
  cleanup_calls (a ++ b) = cleanup_calls a + cleanup_calls b.
Proof.
  unfold cleanup_calls. rewrite filter_app, length_app. reflexivity.
Qed.

Lemma weaken (p q : Call -> bool) (b : bool) (l : list Call) :
  (forall ev, p ev = true -> q ev = b) ->
  Forall (fun ev => p ev = true) l ->
  Forall (fun ev => q ev = b) l.
Proof.
  intros Hpq H. induction H; constructor; auto.
Qed.

Lemma none_counted (l : list Call) :
  Forall (fun ev => is_cleanup ev = false) l -> cleanup_calls l = 0.
Proof.
  unfold cleanup_calls.
  induction 1 as [ | ev l Hev _ IH]; simpl; auto.
  rewrite Hev. exact IH.
Qed.

Lemma calm_not_cleanup (ev : Call) : calm ev = true -> is_cleanup ev = false.
Proof.
  destruct ev; simpl; auto; discriminate.
Qed.

Lemma calm_not_crash (ev : Call) : calm ev = true -> crashes ev = false.
Proof.
  destruct ev as [ | | | | [ | ] | [ | | ] | ? ? [ | ] | [ | ] | [ | ]
                 | ? [ | ] | | | | ];
    simpl; auto; discriminate.
Qed.

Lemma calm_not_stop (ev : Call) : calm ev = true -> is_stop_poll ev = false.
Proof.
  destruct ev as [ | | | | | [ | | ] | | | | | | | | ]; simpl; auto.
  intros H. apply negb_true_iff in H. exact H.
Qed.

Lemma calm_not_sentinel (ev : Call) :
  calm ev = true -> sentinel_update ev = false.
Proof.
  destruct ev as [ | | | | | | ? ? [ | ] | | | | | | | ]; simpl; auto.
  - discriminate.
  - intros H. apply negb_true_iff in H. exact H.
Qed.

Lemma teardown_not_loop (ev : Call) :
  in_teardown ev = true -> is_loop_call ev = false.
Proof.
  destruct ev; simpl; auto; discriminate.
Qed.

Lemma teardown_not_crash (ev : Call) :
  in_teardown ev = true -> crashes ev = false.
Proof.
  destruct ev; simpl; auto; discriminate.
Qed.

Lemma teardown_not_stop (ev : Call) :
  in_teardown ev = true -> is_stop_poll ev = false.
Proof.
  destruct ev; simpl; auto; discriminate.
Qed.

Lemma teardown_not_sentinel (ev : Call) :
  in_teardown ev = true -> sentinel_update ev = false.
Proof.
  destruct ev; simpl; auto; discriminate.
Qed.

Lemma found (p : Call -> bool) (b : bool) (l : list Call) (ev : Call) :
  Forall (fun ev => p ev = b) l -> In ev l -> p ev = b.
Proof.
  intros H Hin. rewrite Forall_forall in H. auto.
Qed.

(** The one call with [p] among calls without it. *)
Lemma split_unique (p : Call -> bool) (pre post X Y : list Call) (a b : Call) :
  Forall (fun ev => p ev = false) pre ->
  Forall (fun ev => p ev = false) post ->
  p b = true ->
  pre ++ a :: post = X ++ b :: Y ->
  X = pre /\ b = a /\ Y = post.
Proof.
  intros Hpre Hpost Hb. revert X.
  induction Hpre as [ | ev pre Hev _ IH]; intros X Heq.
  - destruct X as [ | x X]; simpl in Heq.
    + injection Heq as -> ->. auto.
    + injection Heq as -> ->.
      assert (p b = false) by (eapply found; [exact Hpost | apply in_elt]).
      congruence.
  - destruct X as [ | x X]; simpl in Heq.
    + injection Heq as -> _. congruence.
    + injection Heq as -> Heq.
      destruct (IH X Heq) as (-> & -> & ->). auto.
Qed.

Lemma none_splits (p : Call -> bool) (l X Y : list Call) (b : Call) :
  Forall (fun ev => p ev = false) l ->
  p b = true ->
  l = X ++ b :: Y ->
  False.
Proof.
  intros H Hb ->.
  assert (p b = false) by (eapply found; [exact H | apply in_elt]).
  congruence.
Qed.

Lemma setup_calls_calm : Forall (fun ev => calm ev = true) setup_calls.
Proof.
  repeat constructor.
Qed.

Lemma entered_calm (n : string) :
  Forall (fun ev => calm ev = true) (entered n).
Proof.
  repeat constructor.
Qed.

(** Take a membership in a sequence of calls apart, piece by piece. *)
Ltac hunt H :=
  unfold entered, setup_calls, crash_log in H;
  repeat match type of H with
         | In _ (_ ++ _) => apply in_app_or in H; destruct H as [H | H]
         | In _ (_ :: _) => destruct H as [H | H]
         | In _ [] => destruct H
         | In _ (match ?x with _ => _ end) => destruct x
         end.

Ltac failed_setup_cases H :=
  destruct H as [H | [H | H]]; subst.

Ltac failed_loop_cases H :=
  let h := fresh "h" in
  let d := fresh "d" in
  let p := fresh "p" in
  destruct H as [H | [H | [(h & d & H) | [H | [H | (p & H)]]]]]; subst.

Lemma calls_of_teardown_only
  (st : State) (r : Completion unit) (td : list Call) (ev : Call) :
  finished st r td -> In ev td -> in_teardown ev = true.
Proof.
  intros H Hin. eapply found; [ | exact Hin].
  eapply teardown_calls. exact H.
Qed.

Lemma calm_member (work : list Call) (ev : Call) :
  Forall (fun ev => calm ev = true) work -> In ev work -> calm ev = true.
Proof.
  intros H Hin. eapply found; eauto.
Qed.

Lemma count_from_teardown (n : string) (work : list Call) (a b : Call)
  (td : list Call) :
  Forall (fun ev => calm ev = true) work ->
  is_cleanup a = false ->
  is_cleanup b = false ->
  cleanup_calls (entered n ++ work ++ a :: b :: td) = cleanup_calls td.
Proof.
  intros Hwork Ha Hb.
  rewrite !cleanup_calls_app.
  rewrite (none_counted (l := work))
    by (eapply weaken; [apply calm_not_cleanup | exact Hwork]).
  unfold cleanup_calls at 1 2. simpl. rewrite Ha, Hb. reflexivity.
Qed.

Lemma loop_call_not_cleanup (ev : Call) :
  is_loop_call ev = true -> is_cleanup ev = false.
Proof.
  destruct ev; simpl; auto; discriminate.
Qed.

Lemma failure_reaches_teardown (evs td : list Call) (pre : list Call) :
  ~ checker_cleanup_failed (pre ++ td) -> ~ checker_cleanup_failed td.
Proof.
  intros H [e He]. apply H. exists e. apply in_or_app. auto.
Qed.


Ltac outline_cases fuel s w :=
  destruct (run_outline fuel s w)
    as [ work Hr Hevs Hwork
       | pre0 ev0 e0 td st Hfail0 Hpre Hevs Hlog Hfin
       | e0 td st Hevs Hready Hname Hfin
       | work ev0 e0 td st Hevs Hwork Hfail0 Hcall Hupd Hready Hname Hfin
       | work d0 td st Hevs Hwork Hready Hname Hfin ].


(** Prove that no call of an explicit sequence has the mark [p]. *)
Ltac sweep calm_not teardown_not :=
  unfold entered, setup_calls, crash_log;
  repeat first
    [ apply Forall_nil
    | apply Forall_app; split
    | apply Forall_cons; [ simpl; try reflexivity; try assumption | ]
    | eapply weaken; [apply calm_not | eassumption]
    | eapply weaken; [apply teardown_not | eapply teardown_calls; eassumption]
    ].

Lemma failed_in_loop_crashes (ev : Call) (e : PyExc) :
  failed_in_loop ev e -> crashes ev = true.
Proof.
  intros H. failed_loop_cases H; reflexivity.
Qed.

Lemma failed_in_loop_same (ev : Call) (e e' : PyExc) :
  failed_in_loop ev e -> failed_in_loop ev e' -> e = e'.
Proof.
  intros H H'.
  failed_loop_cases H; failed_loop_cases H'; congruence.
Qed.

Lemma failed_in_setup_quiet (ev : Call) (e : PyExc) :
  failed_in_setup ev e ->
  crashes ev = false /\ is_stop_poll ev = false /\
  sentinel_update ev = false /\ is_cleanup ev = false.
Proof.
  intros H. failed_setup_cases H; auto.
Qed.

Lemma teardown_quiet (st : State) (r : Completion unit) (td : list Call) :
  finished st r td -> no_loop_call td.
Proof.
  intros H. unfold no_loop_call.
  eapply weaken; [apply teardown_not_loop | eapply teardown_calls; eauto].
Qed.

Lemma failed_call_is_logged
  (fuel : nat) (s : Object) (w : World)
  (pre : list Call) (ev : Call) (e : PyExc) (post : list Call) :
  trace (snd (run ext cls fuel s w)) = pre ++ ev :: post ->
  failed_in_loop ev e ->
  exists post',
    post = ELog CRITICAL (msg_crashed (name s) (format_exc ext e)) :: post' /\
    no_loop_call post'.
Proof.
  intros Hsplit Hfail.
  pose proof (failed_in_loop_crashes Hfail) as Hcrash.
  outline_cases fuel s w; rewrite Hevs in Hsplit; clear Hevs.
  - exfalso. eapply (none_splits crashes); [ | exact Hcrash | exact Hsplit].
    sweep calm_not_crash teardown_not_crash.
  - exfalso. eapply (none_splits crashes); [ | exact Hcrash | exact Hsplit].
    destruct (failed_in_setup_quiet Hfail0) as (Hq & _).
    destruct Hpre as [-> | [-> | ->]]; destruct (_MPFLog s);
      sweep calm_not_crash teardown_not_crash.
  - apply (split_unique crashes) in Hsplit; auto.
    + destruct Hsplit as (-> & -> & ->).
      assert (e = e0) as ->
          by (failed_loop_cases Hfail; congruence).
      exists td. split; [reflexivity | ].
      eapply teardown_quiet; eauto.
    + sweep calm_not_crash teardown_not_crash.
    + sweep calm_not_crash teardown_not_crash.
  - rewrite app_assoc in Hsplit.
    apply (split_unique crashes) in Hsplit; auto.
    + destruct Hsplit as (-> & -> & ->).
      rewrite (failed_in_loop_same Hfail Hfail0).
      exists td. split; [reflexivity | ].
      eapply teardown_quiet; eauto.
    + sweep calm_not_crash teardown_not_crash.
    + sweep calm_not_crash teardown_not_crash.
  - exfalso. eapply (none_splits crashes); [ | exact Hcrash | exact Hsplit].
    sweep calm_not_crash teardown_not_crash.
Qed.


Lemma failed_in_loop_not_stop (ev : Call) (e : PyExc) :
  failed_in_loop ev e -> is_stop_poll ev = false.
Proof.
  intros H. failed_loop_cases H; reflexivity.
Qed.

Lemma never_sentinel_update (fuel : nat) (s : Object) (w : World) :
  Forall (fun ev => sentinel_update ev = false)
         (trace (snd (run ext cls fuel s w))).
Proof.
  outline_cases fuel s w; rewrite Hevs; clear Hevs.
  - sweep calm_not_sentinel teardown_not_sentinel.
  - destruct (failed_in_setup_quiet Hfail0) as (_ & _ & Hq & _).
    destruct Hpre as [-> | [-> | ->]]; destruct (_MPFLog s);
      sweep calm_not_sentinel teardown_not_sentinel.
  - sweep calm_not_sentinel teardown_not_sentinel.
  - sweep calm_not_sentinel teardown_not_sentinel.
  - sweep calm_not_sentinel teardown_not_sentinel.
Qed.

(** C3: [update] is never called with the header ["STOP PROCESS"], and once
    a poll has found a message with that header there is no call of
    [update], [step], [publish], the sleep or the poll any more: what
    follows is the teardown. *)
Theorem stop_request_ends_the_loop (fuel : nat) (s : Object) (w : World) :
  STOP_PROCESS = "STOP PROCESS"%string /\
  (forall h d r,
      In (EUpdate h d r) (trace (snd (run ext cls fuel s w))) ->
      h <> STOP_PROCESS) /\
  (forall pre d post,
      trace (snd (run ext cls fuel s w)) =
        pre ++ ECheckForUpdate (NewMessage STOP_PROCESS d) :: post ->
      no_loop_call post /\
      exists td,
        post = ELog DEBUG (msg_stop (name s)) :: td /\
        Forall (fun ev => in_teardown ev = true) td).
Proof.
  split; [reflexivity | split].
  - intros h d r Hin Hh.
    pose proof (never_sentinel_update fuel s w) as Hall.
    apply (found _ _ Hall) in Hin.
    rewrite Hh in Hin. discriminate Hin.
  - intros pre d post Hsplit.
    assert (is_stop_poll (ECheckForUpdate (NewMessage STOP_PROCESS d)) = true)
      as Hstop by reflexivity.
    outline_cases fuel s w; rewrite Hevs in Hsplit; clear Hevs.
    + exfalso.
      eapply (none_splits is_stop_poll); [ | exact Hstop | exact Hsplit].
      sweep calm_not_stop teardown_not_stop.
    + exfalso.
      eapply (none_splits is_stop_poll); [ | exact Hstop | exact Hsplit].
      destruct (failed_in_setup_quiet Hfail0) as (_ & Hq & _).
      destruct Hpre as [-> | [-> | ->]]; destruct (_MPFLog s);
        sweep calm_not_stop teardown_not_stop.
    + exfalso.
      eapply (none_splits is_stop_poll); [ | exact Hstop | exact Hsplit].
      sweep calm_not_stop teardown_not_stop.
    + exfalso.
      eapply (none_splits is_stop_poll); [ | exact Hstop | exact Hsplit].
      pose proof (failed_in_loop_not_stop Hfail0) as Hq.
      sweep calm_not_stop teardown_not_stop.
    + rewrite app_assoc in Hsplit.
      apply (split_unique is_stop_poll) in Hsplit; auto.
      * destruct Hsplit as (_ & _ & ->).
        split.
        -- constructor; [reflexivity | ].
           eapply teardown_quiet; eauto.
        -- exists td. split; [reflexivity | ].
           eapply teardown_calls; eauto.
      * sweep calm_not_stop teardown_not_stop.
      * sweep calm_not_stop teardown_not_stop.
Qed.

Lemma failed_release_is_last
  (fuel : nat) (s : Object) (w : World) (ev : Call) (e : PyExc) :
  In ev (trace (snd (run ext cls fuel s w))) ->
  ev = ECheckerCleanup (Some e) \/ ev = ECleanup (Some e) ->
  fst (run ext cls fuel s w) = Raised e /\
  exists pre, trace (snd (run ext cls fuel s w)) = pre ++ [ev].
Proof.
  intros Hin Hev.
  assert (calm ev = false) as Hcalm by (destruct Hev; subst; reflexivity).
  assert (in_teardown ev = true) as Htd by (destruct Hev; subst; reflexivity).
  assert (is_loop_call ev = false) as Hloop
      by (destruct Hev; subst; reflexivity).
  outline_cases fuel s w; rewrite Hevs in *; clear Hevs.
  - exfalso. hunt Hin; subst; try discriminate.
    apply (calm_member _ Hwork) in Hin. congruence.
  - assert (In ev td) as Hin'.
    { destruct Hpre as [-> | [-> | ->]]; hunt Hin; subst;
        try discriminate; try assumption;
        failed_setup_cases Hfail0; discriminate. }
    destruct (teardown_failure_last Hfin Hin' Hev) as [Hr [pre' ->]].
    split; [exact Hr | ].
    eexists. rewrite app_comm_cons, !app_assoc. reflexivity.
  - assert (In ev td) as Hin'
        by (hunt Hin; subst; try discriminate; assumption).
    destruct (teardown_failure_last Hfin Hin' Hev) as [Hr [pre' ->]].
    split; [exact Hr | ].
    eexists. rewrite !app_comm_cons, !app_assoc. reflexivity.
  - assert (In ev td) as Hin'.
    { hunt Hin; subst; try discriminate; try assumption; try congruence.
      apply (calm_member _ Hwork) in Hin. congruence. }
    destruct (teardown_failure_last Hfin Hin' Hev) as [Hr [pre' ->]].
    split; [exact Hr | ].
    eexists. rewrite !app_comm_cons, !app_assoc. reflexivity.
  - assert (In ev td) as Hin'.
    { hunt Hin; subst; try discriminate; try assumption.
      apply (calm_member _ Hwork) in Hin. congruence. }
    destruct (teardown_failure_last Hfin Hin' Hev) as [Hr [pre' ->]].
    split; [exact Hr | ].
    eexists. rewrite !app_comm_cons, !app_assoc. reflexivity.
Qed.

(** C7: when the reader's [cleanup] or the worker's [cleanup] raises, that
    call is the last one made (the handler logs nothing for it) and its
    exception leaves [run]. *)
Theorem teardown_failure_propagates
  (fuel : nat) (s : Object) (w : World) (ev : Call) (e : PyExc) :
  In ev (trace (snd (run ext cls fuel s w))) ->
  ev = ECheckerCleanup (Some e) \/ ev = ECleanup (Some e) ->
  fst (run ext cls fuel s w) = Raised e /\
  exists pre, trace (snd (run ext cls fuel s w)) = pre ++ [ev].
Proof.
  apply failed_release_is_last.
Qed.

Lemma failed_in_both (ev : Call) (e e' : PyExc) :
  failed_in_setup ev e -> failed_in_loop ev e' -> False.
Proof.
  intros H H'. failed_setup_cases H; failed_loop_cases H'; discriminate.
Qed.

Lemma failed_in_setup_not_calm (ev : Call) (e : PyExc) :
  failed_in_setup ev e -> calm ev = false /\ in_teardown ev = false.
Proof.
  intros H. failed_setup_cases H; auto.
Qed.

(** C10: when a call of lines 35-42 raises while [_MPFLog] is still
    [None], the handler cannot log, the [finally] block fails on the logger
    before it reaches the worker's [cleanup], and [AttributeError] leaves
    [run]. *)
Theorem no_cleanup_without_logger
  (fuel : nat) (s : Object) (w : World) (ev : Call) (e : PyExc) :
  _MPFLog s = None ->
  In ev (trace (snd (run ext cls fuel s w))) ->
  failed_in_setup ev e ->
  fst (run ext cls fuel s w) = Raised AttributeError /\
  cleanup_calls (trace (snd (run ext cls fuel s w))) = 0 /\
  (forall m, ~ In (ELog CRITICAL m) (trace (snd (run ext cls fuel s w)))).
Proof.
  intros Hnone Hin Hfail.
  destruct (failed_in_setup_not_calm Hfail) as [Hcalm Htd].
  outline_cases fuel s w; rewrite Hevs in *; clear Hevs.
  - exfalso. hunt Hin; subst; try discriminate;
      try (failed_setup_cases Hfail; discriminate).
    apply (calm_member _ Hwork) in Hin. congruence.
  - rewrite Hnone in *. simpl in *.
    destruct (teardown_unlogged Hlog Hfin) as [Hr Hcount].
    split; [exact Hr | split].
    + rewrite cleanup_calls_app.
      change (ev0 :: td) with ([ev0] ++ td).
      rewrite cleanup_calls_app, Hcount.
      destruct (failed_in_setup_quiet Hfail0) as (_ & _ & _ & Hq).
      unfold cleanup_calls at 2. simpl. rewrite Hq.
      destruct Hpre as [-> | [-> | ->]]; reflexivity.
    + intros m Hm.
      destruct Hpre as [-> | [-> | ->]]; hunt Hm; try discriminate;
        try (failed_setup_cases Hfail0; discriminate);
        apply (calls_of_teardown_only _ Hfin) in Hm; discriminate.
  - exfalso. hunt Hin; subst; try discriminate;
      try (failed_setup_cases Hfail; discriminate).
    apply (calls_of_teardown_only _ Hfin) in Hin. congruence.
  - exfalso. hunt Hin; subst; try discriminate;
      try (failed_setup_cases Hfail; discriminate).
    + apply (calm_member _ Hwork) in Hin. congruence.
    + apply (calls_of_teardown_only _ Hfin) in Hin. congruence.
  - exfalso. hunt Hin; subst; try discriminate;
      try (failed_setup_cases Hfail; discriminate).
    + apply (calm_member _ Hwork) in Hin. congruence.
    + apply (calls_of_teardown_only _ Hfin) in Hin. congruence.
Qed.

(** C4: an iteration that runs to its end makes, in this order, one poll,
    one call of [update] with the header and data just read if and only if
    the poll found a message other than the stop request, one call of
    [step], one call of [publish], and one sleep if and only if a wait
    period is set. *)
Theorem iteration_order (st st' : State) :
  iteration ext cls st = (Normal Continue, st') ->
  exists p,
    goes_on p /\
    trace st' =
      trace st ++ ECheckForUpdate p :: update_of p
        ++ [EStep None; EPublish None]
        ++ sleep_of (_loop_wait_period (self st)).
Proof.
  intros H. revert H.
  crunch; intros H; injection H as <-; simpl; tidy.
  all: match goal with
       | |- exists p, _ /\ _ ++ ECheckForUpdate ?q :: _ = _ => exists q
       end.
  all: split; [ | reflexivity]; simpl; auto.
  all: intros Hh;
    match goal with
    | H : String.eqb _ _ = false |- _ =>
        rewrite Hh, String.eqb_refl in H; discriminate H
    end.
Qed.


(** *** Properties kept by every statement of [run] *)

Section Invariant.

Variable Inv : State -> Prop.

(** The supervisor's own statements keep [Inv]: they leave the shared
    memory handle alone and record no hook call. *)
Hypothesis Inv_core :
  forall (st st' : State) (evs : list Call),
    shared_memory (self st') = shared_memory (self st) ->
    trace st' = trace st ++ evs ->
    Forall (fun ev => is_hook_call ev = false) evs ->
    Inv st -> Inv st'.

(** So does every call of a hook. *)
Hypothesis Inv_hook :
  forall (st : State) h ev,
    is_hook h ev -> Inv st -> Inv (snd (call_hook h ev st)).

Lemma keeps_ret (A : Type) (a : A) : keeps Inv (ret a).
Proof.
  intros st H. exact H.
Qed.

Lemma keeps_raise (A : Type) (e : PyExc) : keeps Inv (raise (A := A) e).
Proof.
  intros st H. exact H.
Qed.

Lemma keeps_bind (A B : Type)
  (m : M Chan Mem Data Period TaskChecker ResultPublisher World A)
  (k : A -> M Chan Mem Data Period TaskChecker ResultPublisher World B) :
  keeps Inv m -> (forall a, keeps Inv (k a)) -> keeps Inv (bind m k).
Proof.
  intros Hm Hk st H. unfold bind.
  specialize (Hm st H).
  destruct (m st) as [[a | e | ] st1]; simpl in *; auto.
  apply Hk. exact Hm.
Qed.

Lemma keeps_get_self : keeps Inv get_self.
Proof.
  intros st H. exact H.
Qed.

(** A statement of the supervisor itself. *)
Ltac core_step :=
  let st := fresh "st" in
  let H := fresh "H" in
  intros st H; crunch;
  (eapply Inv_core; [ | | | exact H]; simpl;
   [ reflexivity
   | tidy; first [reflexivity | symmetry; apply app_nil_r]
   | repeat constructor ]).

Lemma keeps_log (lvl : Level) (msg : string) : keeps Inv (log lvl msg).
Proof.
  core_step.
Qed.

Lemma keeps_the_checker : keeps Inv the_checker.
Proof.
  core_step.
Qed.

Lemma keeps_setup : keeps Inv (setup ext).
Proof.
  core_step.
Qed.

Lemma keeps_poll : keeps Inv (poll ext).
Proof.
  core_step.
Qed.

Lemma keeps_do_sleep (p : Period) : keeps Inv (do_sleep ext p).
Proof.
  core_step.
Qed.

Lemma keeps_on_crash (e : PyExc) : keeps Inv (on_crash ext e).
Proof.
  core_step.
Qed.

Lemma keeps_release_checker : keeps Inv (release_checker ext).
Proof.
  core_step.
Qed.

Lemma keeps_release_publisher : keeps Inv release_publisher.
Proof.
  core_step.
Qed.

Lemma keeps_call_hook h ev : is_hook h ev -> keeps Inv (call_hook h ev).
Proof.
  intros Hh st H. apply Inv_hook; assumption.
Qed.

Ltac keeps_auto :=
  repeat first
    [ apply keeps_ret
    | apply keeps_raise
    | apply keeps_get_self
    | apply keeps_log
    | apply keeps_the_checker
    | apply keeps_poll
    | apply keeps_do_sleep
    | apply keeps_call_hook; constructor
    | apply keeps_bind; [ | intros ? ]
    | match goal with
      | |- keeps _ (match ?x with _ => _ end) => destruct x
      end ].

Lemma keeps_initialize : keeps Inv (initialize cls).
Proof.
  unfold initialize. keeps_auto.
Qed.

Lemma keeps_iteration : keeps Inv (iteration ext cls).
Proof.
  unfold iteration, dispatch, work. keeps_auto.
Qed.

Lemma keeps_loop (fuel : nat) : keeps Inv (loop ext cls fuel).
Proof.
  induction fuel as [ | n IH]; simpl.
  - intros st H. exact H.
  - apply keeps_bind; [apply keeps_iteration | ].
    intros [ | ]; [exact IH | apply keeps_ret].
Qed.

Lemma keeps_teardown : keeps Inv (teardown ext cls).
Proof.
  unfold teardown.
  apply keeps_bind; [apply keeps_release_checker | intros _].
  apply keeps_bind; [apply keeps_release_publisher | intros _].
  keeps_auto.
Qed.

Lemma keeps_guarded (fuel : nat) : keeps Inv (guarded ext cls fuel).
Proof.
  unfold guarded.
  apply keeps_bind; [apply keeps_setup | intros _].
  apply keeps_bind; [apply keeps_initialize | intros _].
  apply keeps_loop.
Qed.

Lemma keeps_run_from (fuel : nat) : keeps Inv (run_from ext cls fuel).
Proof.
  intros st H. unfold run_from, finally_return, try_except.
  pose proof (keeps_guarded fuel) as Hbody. specialize (Hbody st H).
  destruct (guarded ext cls fuel st) as [[[] | e | ] st1]; simpl in *.
  - apply keeps_teardown. exact Hbody.
  - pose proof (keeps_on_crash e) as Hc. specialize (Hc st1 Hbody).
    destruct (on_crash ext e st1) as [[[] | e' | ] st2]; simpl in *.
    + apply keeps_teardown. exact Hc.
    + apply keeps_teardown. exact Hc.
    + exact Hc.
  - exact Hbody.
Qed.

End Invariant.

Lemma call_hook_result h ev (st : State) :
  call_hook h ev st =
    (match raised (h (self st) (world st)) with
     | Some e => Raised e
     | None => Normal tt
     end,
     {| self := after_hook (self st) (h (self st) (world st));
        world := world_after (h (self st) (world st));
        trace := trace st ++ [ev (raised (h (self st) (world st)))] |}).
Proof.
  crunch; reflexivity.
Qed.

(** *** Runs that differ only in the shared memory handle *)

Section Blind.

Local Abbreviation Block :=
  (M Chan Mem Data Period TaskChecker ResultPublisher World).

Hypothesis Hblind : hooks_blind.

Lemma agree_ret (A : Type) (a : A) : agree (ret a) (ret a).
Proof.
  intros st1 st2 H. auto.
Qed.

Lemma agree_raise (A : Type) (e : PyExc) :
  agree (raise (A := A) e) (raise e).
Proof.
  intros st1 st2 H. auto.
Qed.

Lemma agree_bind (A B : Type) (m1 m2 : Block A) (k1 k2 : A -> Block B) :
  agree m1 m2 -> (forall a, agree (k1 a) (k2 a)) ->
  agree (bind m1 k1) (bind m2 k2).
Proof.
  intros Hm Hk st1 st2 H. unfold bind.
  destruct (Hm st1 st2 H) as [Hr Hst].
  destruct (m1 st1) as [r1 st1'], (m2 st2) as [r2 st2']. simpl in *.
  subst r2. destruct r1 as [a | e | ]; simpl; auto.
  apply Hk. exact Hst.
Qed.

Lemma agree_self (B : Type) (k1 k2 : Object -> Block B) :
  (forall s1 s2, alike s1 s2 -> agree (k1 s1) (k2 s2)) ->
  agree (bind get_self k1) (bind get_self k2).
Proof.
  intros Hk st1 st2 H. unfold bind, get_self.
  apply Hk; [apply H | exact H].
Qed.

Lemma agree_world (B : Type) (k1 k2 : World -> Block B) :
  (forall w, agree (k1 w) (k2 w)) ->
  agree (bind get_world k1) (bind get_world k2).
Proof.
  intros Hk st1 st2 H. unfold bind, get_world.
  destruct H as (Hs & Hw & Ht). rewrite Hw.
  apply Hk. unfold alike_states. auto.
Qed.

Lemma agree_emit (ev : Call) : agree (emit ev) (emit ev).
Proof.
  intros st1 st2 (Hs & Hw & Ht). unfold emit, alike_states. simpl.
  rewrite Ht. auto.
Qed.

Lemma agree_put_world (w : World) : agree (put_world w) (put_world w).
Proof.
  intros st1 st2 (Hs & Hw & Ht). unfold put_world, alike_states. simpl. auto.
Qed.

Lemma agree_put_self (s1 s2 : Object) :
  alike s1 s2 -> agree (put_self s1) (put_self s2).
Proof.
  intros Hal st1 st2 (Hs & Hw & Ht). unfold put_self, alike_states. simpl.
  auto.
Qed.

Lemma agree_finish (r : option PyExc) : agree (finish r) (finish r).
Proof.
  destruct r; [apply agree_raise | apply agree_ret].
Qed.

Lemma agree_hook h ev : is_hook h ev -> agree (call_hook h ev) (call_hook h ev).
Proof.
  intros Hh st1 st2 (Hs & Hw & Ht).
  rewrite !call_hook_result. simpl.
  rewrite <- Hw.
  pose proof Hblind as Hb.
  specialize (Hb h ev Hh (self st1) (self st2) (world st1) Hs).
  destruct Hb as [Hr Hwa].
  rewrite Hr, Hwa, Ht. split; [reflexivity | ].
  unfold alike_states, alike in *. simpl. intuition.
Qed.


Ltac alike_solve :=
  match goal with
  | Hal : alike _ _ |- _ =>
      unfold alike in *; simpl; intuition congruence
  end.

(** Walk through two copies of the same block. *)
Ltac agree_auto :=
  repeat first
    [ apply agree_ret
    | apply agree_raise
    | apply agree_emit
    | match goal with
      | |- agree (emit ?a) (emit ?b) =>
          replace a with b by alike_solve; apply agree_emit
      end
    | apply agree_put_world
    | apply agree_finish
    | apply agree_put_self; alike_solve
    | apply agree_hook; constructor
    | apply agree_self; intros ? ? ?
    | apply agree_world; intros ?
    | apply agree_bind; [ | intros ? ]
    | match goal with
      | |- agree (match ?x with _ => _ end) (match ?y with _ => _ end) =>
          first [ constr_eq x y
                | replace x with y by alike_solve ];
          destruct y
      end ].

Lemma agree_log (lvl : Level) (msg : string) :
  agree (log lvl msg) (log lvl msg).
Proof.
  unfold log. agree_auto.
Qed.

Lemma agree_the_checker : agree the_checker the_checker.
Proof.
  unfold the_checker. agree_auto.
Qed.

Lemma agree_setup : agree (setup ext) (setup ext).
Proof.
  unfold setup, imports, new_task_checker, new_results_publisher,
    assign_logger.
  agree_auto.
Qed.

Lemma agree_initialize : agree (initialize cls) (initialize cls).
Proof.
  unfold initialize, log. agree_auto.
Qed.

Lemma agree_iteration : agree (iteration ext cls) (iteration ext cls).
Proof.
  unfold iteration, dispatch, work, poll, do_sleep, the_checker, log.
  agree_auto.
Qed.

Lemma agree_loop (fuel : nat) : agree (loop ext cls fuel) (loop ext cls fuel).
Proof.
  induction fuel as [ | n IH]; simpl.
  - intros st1 st2 H. auto.
  - apply agree_bind; [apply agree_iteration | ].
    intros [ | ]; [exact IH | apply agree_ret].
Qed.

Lemma agree_on_crash (e : PyExc) : agree (on_crash ext e) (on_crash ext e).
Proof.
  unfold on_crash, log. agree_auto.
Qed.

Lemma agree_teardown : agree (teardown ext cls) (teardown ext cls).
Proof.
  unfold teardown, release_checker, release_publisher, do_checker_cleanup,
    del_task_checker, del_results_publisher, the_checker, log.
  agree_auto.
Qed.

Lemma agree_guarded (fuel : nat) :
  agree (guarded ext cls fuel) (guarded ext cls fuel).
Proof.
  unfold guarded.
  apply agree_bind; [apply agree_setup | intros _].
  apply agree_bind; [apply agree_initialize | intros _].
  apply agree_loop.
Qed.

Lemma agree_run_from (fuel : nat) :
  agree (run_from ext cls fuel) (run_from ext cls fuel).
Proof.
  intros st1 st2 H. unfold run_from, finally_return, try_except.
  pose proof (agree_guarded fuel) as Hg.
  destruct (Hg st1 st2 H) as [Hr Hst]. clear Hg.
  destruct (guarded ext cls fuel st1) as [r1 st1'],
           (guarded ext cls fuel st2) as [r2 st2'].
  simpl in *. subst r2.
  destruct r1 as [[] | e | ]; simpl.
  - apply agree_teardown. exact Hst.
  - pose proof (agree_on_crash e) as Hc.
    destruct (Hc st1' st2' Hst) as [Hr Hst']. clear Hc.
    destruct (on_crash ext e st1') as [r1 st1''],
             (on_crash ext e st2') as [r2 st2''].
    simpl in *. subst r2.
    destruct r1 as [[] | e' | ]; simpl; auto; apply agree_teardown; exact Hst'.
  - auto.
Qed.
End Blind.

(** Every recorded outcome of a hook is the outcome of the class's
    method. *)
Lemma run_genuine (fuel : nat) (s : Object) (w : World) :
  Forall genuine (trace (snd (run ext cls fuel s w))).
Proof.
  unfold run.
  apply (@keeps_run_from (fun st => Forall genuine (trace st))).
  - intros st st' evs _ Htr Hq H. rewrite Htr.
    apply Forall_app. split; [exact H | ].
    eapply Forall_impl; [ | exact Hq].
    intros ev. destruct ev; simpl; auto; discriminate.
  - intros st h ev Hh H. rewrite call_hook_result. simpl.
    apply Forall_app. split; [exact H | ].
    constructor; [ | constructor].
    destruct Hh; simpl; eauto.
  - constructor.
Qed.

Lemma alike_after_set (s : Object) (memory : option Mem) :
  alike s (set_shared_memory s memory).
Proof.
  unfold alike. simpl. auto 10.
Qed.


(** ** Further properties of [run] *)

(** *** What the calls of the loop add up to *)

Section LoopContent.

Variable P : list Call -> Prop.

Hypothesis P_nil : P [].

Hypothesis P_app : forall a b, P a -> P b -> P (a ++ b).

Hypothesis P_iteration :
  forall st : State,
    ready st ->
    exists evs,
      trace (snd (iteration ext cls st)) = trace st ++ evs /\ P evs.

Lemma loop_content (n : nat) :
  forall st : State,
    ready st ->
    exists evs,
      trace (snd (loop ext cls n st)) = trace st ++ evs /\ P evs.
Proof.
  induction n as [ | n IH]; intros st Hready.
  - exists []. simpl. rewrite app_nil_r. auto.
  - rewrite loop_step.
    destruct (P_iteration Hready) as (evs & Htr & HP).
    destruct (iteration_cases Hready)
      as [ (st1 & evs1 & Hit & _ & _ & Hr1 & _)
         | [ (st1 & d & Hit & _)
           | (e & st1 & pre & ev & Hit & _) ] ];
      rewrite Hit in *; simpl in Htr.
    + destruct (IH st1 Hr1) as (evs2 & Htr2 & HP2).
      exists (evs ++ evs2). rewrite Htr2, Htr, app_assoc. auto.
    + exists evs. auto.
    + exists evs. auto.
Qed.

(** The calls of a run: those before the loop, those of the loop, and the
    crash report and teardown after it. *)
Lemma run_content (fuel : nat) (s : Object) (w : World) :
  exists before during after,
    trace (snd (run ext cls fuel s w)) = before ++ during ++ after /\
    P during /\
    Forall (fun ev => is_loop_call ev = false) before /\
    length (filter is_init_call before) <= 1 /\
    Forall (fun ev => in_teardown ev = true \/ is_crash_report ev = true)
           after.
Proof.
  rewrite run_unfold. cbv zeta.
  set (st0 := {| self := s; world := w; trace := [] |}).
  assert (forall (st : State) (front : list Call),
             trace st = front ->
             exists after,
               trace (snd (teardown ext cls st)) = front ++ after /\
               Forall (fun ev => in_teardown ev = true) after) as Htd.
  { intros st front <-.
    destruct (teardown_finishes st) as (r & td & st' & Heq & Htr).
    exists td. rewrite Heq. simpl. split; [exact Htr | ].
    apply (@teardown_calls st r td). exists st'. auto. }
  assert (forall (e : PyExc) (st : State) (front : list Call),
             trace st = front ->
             exists after,
               trace (snd (teardown ext cls (snd (on_crash ext e st)))) =
                 front ++ after /\
               Forall (fun ev => in_teardown ev = true \/
                                 is_crash_report ev = true) after) as Hcr.
  { intros e st front Hfront.
    destruct (_MPFLog (self st)) as [lg | ] eqn:Hlog.
    - rewrite (on_crash_logged e st Hlog). simpl.
      destruct (Htd (push st [crash_log (name (self st)) e])
                    (front ++ [crash_log (name (self st)) e]))
        as (after & Heq & Hall).
      { simpl. rewrite Hfront. reflexivity. }
      exists (crash_log (name (self st)) e :: after).
      rewrite Heq, <- app_assoc. split; [reflexivity | ].
      constructor; [right; reflexivity | ].
      eapply Forall_impl; [ | exact Hall]. auto.
    - rewrite (on_crash_unlogged e st Hlog). simpl.
      destruct (Htd st front Hfront) as (after & Heq & Hall).
      exists after. split; [exact Heq | ].
      eapply Forall_impl; [ | exact Hall]. auto. }
  destruct (setup_cases st0)
    as [ (st1 & Hs & Htr1 & Hr1 & Hn1)
       | (e & st1 & pre & ev & Hs & Htr1 & Hfail & Hpre & Hlog1 & Hn1) ];
    rewrite Hs; simpl in Htr1.
  - destruct (initialize_cases Hr1)
      as [ (st2 & Hi & Htr2 & Hr2 & Hn2)
         | (e & st2 & Hi & Htr2 & Hr2 & Hn2) ];
      rewrite Hi; rewrite Htr1 in Htr2.
    + destruct (loop_content fuel Hr2) as (during & Htr3 & HP).
      rewrite Htr2 in Htr3.
      destruct (loop ext cls fuel st2) as [[[] | e | ] st3]; simpl in Htr3.
      * destruct (Htd st3 _ Htr3) as (after & Heq & Hall).
        exists (entered (name (self st1))), during, after. rewrite Heq.
        split; [unfold entered, setup_calls; simpl; reflexivity | ].
        split; [exact HP | ].
        split; [repeat constructor | split; [simpl; lia | ] ].
        eapply Forall_impl; [ | exact Hall]. auto.
      * destruct (Hcr e st3 _ Htr3) as (after & Heq & Hall).
        exists (entered (name (self st1))), during, after. rewrite Heq.
        split; [unfold entered, setup_calls; simpl; reflexivity | ].
        split; [exact HP | ].
        split; [repeat constructor | split; [simpl; lia | exact Hall] ].
      * exists (entered (name (self st1))), during, []. simpl.
        rewrite Htr3.
        split; [unfold entered, setup_calls; simpl;
                rewrite app_nil_r; reflexivity | ].
        split; [exact HP | ].
        split; [repeat constructor | split; [simpl; lia | constructor] ].
    + destruct (Hcr e st2 _ Htr2) as (after & Heq & Hall).
      exists (setup_calls ++ [EInit (Some e)]), [], after. rewrite Heq.
      split; [unfold setup_calls; simpl; reflexivity | ].
      split; [exact P_nil | ].
      split; [repeat constructor | split; [simpl; lia | exact Hall] ].
  - destruct (Hcr e st1 _ Htr1) as (after & Heq & Hall).
    exists (pre ++ [ev]), [], after. rewrite Heq.
    split; [simpl; reflexivity | ].
    split; [exact P_nil | ].
    split; [ | split; [ | exact Hall] ].
    + destruct Hpre as [-> | [-> | ->]];
        failed_setup_cases Hfail; repeat constructor.
    + destruct Hpre as [-> | [-> | ->]];
        failed_setup_cases Hfail; simpl; lia.
Qed.

End LoopContent.

(** What one iteration adds: no call of [init], an [update] for each
    message found, a [publish] for each [step] that returned. *)
Lemma iteration_balanced (st : State) :
  ready st ->
  exists evs,
    trace (snd (iteration ext cls st)) = trace st ++ evs /\
    (Forall (fun ev => is_init_call ev = false) evs /\
     delivered evs = received evs /\
     length (filter is_publish_call evs) =
       length (filter is_step_return evs)).
Proof.
  intros H. ready_split H.
  crunch; tidy.
  all: eexists; split; [reflexivity | ].
  all: unfold delivered, received; simpl;
    repeat match goal with
           | H : String.eqb _ _ = _ |- _ => rewrite H
           end;
    split; [repeat constructor | split; reflexivity].
Qed.

Lemma quiet_calls (l : list Call) :
  Forall (fun ev => is_loop_call ev = false) l ->
  delivered l = [] /\ received l = [] /\
  length (filter is_publish_call l) = 0 /\
  length (filter is_step_return l) = 0.
Proof.
  induction 1 as [ | ev l Hev _ IH]; [simpl; auto | ].
  destruct IH as (H1 & H2 & H3 & H4).
  unfold delivered, received in *.
  destruct ev as [ | | | | | | | [ | ] | | | | | | ];
    simpl in *; try discriminate; auto.
Qed.

Lemma after_quiet (l : list Call) :
  Forall (fun ev => in_teardown ev = true \/ is_crash_report ev = true) l ->
  Forall (fun ev => is_loop_call ev = false) l /\
  Forall (fun ev => is_init_call ev = false) l.
Proof.
  intros H. split; (eapply Forall_impl; [ | exact H]);
    intros ev [Hev | Hev]; destruct ev; simpl in *; auto; discriminate.
Qed.

Lemma run_balanced (fuel : nat) (s : Object) (w : World) :
  length (filter is_init_call (trace (snd (run ext cls fuel s w)))) <= 1 /\
  delivered (trace (snd (run ext cls fuel s w))) =
    received (trace (snd (run ext cls fuel s w))) /\
  length (filter is_publish_call (trace (snd (run ext cls fuel s w)))) =
    length (filter is_step_return (trace (snd (run ext cls fuel s w)))).
Proof.
  destruct (@run_content
              (fun evs =>
                 Forall (fun ev => is_init_call ev = false) evs /\
                 delivered evs = received evs /\
                 length (filter is_publish_call evs) =
                   length (filter is_step_return evs)))
    with (fuel := fuel) (s := s) (w := w)
    as (before & during & after & Heq & (Hi & Hd & Hp) & Hb & Hone & Ha).
  - repeat split; constructor.
  - intros a b (Ha1 & Ha2 & Ha3) (Hb1 & Hb2 & Hb3).
    unfold delivered, received in *.
    rewrite !flat_map_app, !filter_app, !length_app.
    split; [apply Forall_app; auto | split; congruence].
  - apply iteration_balanced.
  - destruct (after_quiet Ha) as [Ha1 Ha2].
    destruct (quiet_calls Hb) as (B1 & B2 & B3 & B4).
    destruct (quiet_calls Ha1) as (A1 & A2 & A3 & A4).
    rewrite Heq. unfold delivered, received in *.
    rewrite !flat_map_app, !filter_app, !length_app.
    rewrite B1, B2, B3, B4, A1, A2, A3, A4, Hd, Hp.
    split; [ | split; reflexivity].
    assert (forall l : list Call,
               Forall (fun ev => is_init_call ev = false) l ->
               length (filter is_init_call l) = 0) as Hzero.
    { induction 1 as [ | ev l Hev _ IH]; simpl; auto.
      rewrite Hev. exact IH. }
    rewrite (Hzero during Hi), (Hzero after Ha2). lia.
Qed.

(** [init] is called at most once in a run. *)
Lemma init_at_most_once (fuel : nat) (s : Object) (w : World) :
  length (filter is_init_call (trace (snd (run ext cls fuel s w)))) <= 1.
Proof.
  apply run_balanced.
Qed.

(** X11: [update] is called exactly once for each message a poll finds, the
    stop request apart, in the order of the polls and with the header and
    data of that poll. *)
Theorem every_message_is_delivered (fuel : nat) (s : Object) (w : World) :
  delivered (trace (snd (run ext cls fuel s w))) =
    received (trace (snd (run ext cls fuel s w))).
Proof.
  apply run_balanced.
Qed.

(** X12: [publish] is called exactly once for each call of [step] that
    returned, and never otherwise. *)
Theorem publish_follows_each_step (fuel : nat) (s : Object) (w : World) :
  length (filter is_publish_call (trace (snd (run ext cls fuel s w)))) =
    length (filter is_step_return (trace (snd (run ext cls fuel s w)))).
Proof.
  apply run_balanced.
Qed.

(** *** What a run never does *)

Lemma failed_in_setup_other (ev : Call) (e : PyExc) :
  failed_in_setup ev e ->
  is_loop_call ev = false /\ is_crash_report ev = false /\
  touches_reader ev = false.
Proof.
  intros H. failed_setup_cases H; auto.
Qed.

Lemma calm_not_report (ev : Call) :
  calm ev = true -> is_crash_report ev = false.
Proof.
  destruct ev as [ | | | [ | ] | | | | | | | | | | ]; simpl; auto;
    discriminate.
Qed.

Lemma teardown_not_report (ev : Call) :
  in_teardown ev = true -> is_crash_report ev = false.
Proof.
  destruct ev as [ | | | [ | ] | | | | | | | | | | ]; simpl; auto;
    discriminate.
Qed.

(** X1: the worker's [cleanup] is called at most once in a run, however
    the run goes. *)
Theorem cleanup_at_most_once (fuel : nat) (s : Object) (w : World) :
  cleanup_calls (trace (snd (run ext cls fuel s w))) <= 1.
Proof.
  outline_cases fuel s w; rewrite Hevs; clear Hevs.
  - rewrite cleanup_calls_app.
    rewrite (@none_counted work)
      by (eapply weaken; [apply calm_not_cleanup | exact Hwork]).
    unfold cleanup_calls. simpl. lia.
  - pose proof (teardown_at_most_once Hfin) as Htd.
    destruct (failed_in_setup_quiet Hfail0) as (_ & _ & _ & Hq).
    destruct Hpre as [-> | [-> | ->]]; destruct (_MPFLog s);
      unfold cleanup_calls in *; simpl; rewrite Hq; exact Htd.
  - pose proof (teardown_at_most_once Hfin) as Htd.
    unfold cleanup_calls in *. simpl. exact Htd.
  - rewrite count_from_teardown; auto using loop_call_not_cleanup.
    apply (teardown_at_most_once Hfin).
  - rewrite count_from_teardown; auto.
    apply (teardown_at_most_once Hfin).
Qed.

Lemma split_after
  (p : Call -> bool) (front rest pre post : list Call) (ev : Call) :
  Forall (fun ev => p ev = false) front ->
  p ev = true ->
  front ++ rest = pre ++ ev :: post ->
  exists pre', pre = front ++ pre'.
Proof.
  intros Hfront Hev. revert pre.
  induction Hfront as [ | a front Ha _ IH]; intros pre Heq.
  - exists pre. reflexivity.
  - destruct pre as [ | b pre]; simpl in Heq.
    + injection Heq as <- _. congruence.
    + injection Heq as <- Heq.
      destruct (IH pre Heq) as [pre' ->]. exists pre'. reflexivity.
Qed.

Lemma entered_quiet (n : string) :
  Forall (fun ev => is_loop_call ev = false) (entered n).
Proof.
  repeat constructor.
Qed.

Lemma init_in_entered (n : string) (l : list Call) :
  In (EInit None) (entered n ++ l).
Proof.
  apply in_or_app. left. unfold entered, setup_calls. simpl. auto 10.
Qed.

(** X2: [init] is called at most once, and a poll, [update], [step],
    [publish] or sleep happens only after [init] has returned. *)
Theorem init_once_and_first (fuel : nat) (s : Object) (w : World) :
  length (filter is_init_call (trace (snd (run ext cls fuel s w)))) <= 1 /\
  (forall pre ev post,
      trace (snd (run ext cls fuel s w)) = pre ++ ev :: post ->
      is_loop_call ev = true ->
      In (EInit None) pre).
Proof.
  split; [apply run_balanced | ].
  intros pre ev post Hsplit Hev.
  outline_cases fuel s w; rewrite Hevs in Hsplit; clear Hevs.
  - destruct (@split_after is_loop_call (entered (name s)) _ pre post ev
                (entered_quiet (name s)) Hev Hsplit) as [pre' ->].
    apply init_in_entered.
  - exfalso.
    eapply (none_splits is_loop_call); [ | exact Hev | exact Hsplit].
    destruct (failed_in_setup_other Hfail0) as (Hq & _).
    destruct Hpre as [-> | [-> | ->]]; destruct (_MPFLog s);
      sweep calm_not_crash teardown_not_loop.
  - exfalso.
    eapply (none_splits is_loop_call); [ | exact Hev | exact Hsplit].
    sweep calm_not_crash teardown_not_loop.
  - destruct (@split_after is_loop_call (entered (name s)) _ pre post ev
                (entered_quiet (name s)) Hev Hsplit) as [pre' ->].
    apply init_in_entered.
  - destruct (@split_after is_loop_call (entered (name s)) _ pre post ev
                (entered_quiet (name s)) Hev Hsplit) as [pre' ->].
    apply init_in_entered.
Qed.

Lemma teardown_raise_source
  (st : State) (e : PyExc) (td : list Call) :
  ready st ->
  finished st (Raised e) td ->
  exists pre ev,
    td = pre ++ [ev] /\
    (ev = ECheckerCleanup (Some e) \/ ev = ECleanup (Some e)).
Proof.
  intros Hr H. ready_split Hr.
  teardown_cases H.
  all: first
    [ exists []; eexists; split; [reflexivity | auto; fail]
    | eexists [_]; eexists; split; [reflexivity | auto; fail]
    | eexists [_; _]; eexists; split; [reflexivity | auto; fail]
    | eexists [_; _; _]; eexists; split; [reflexivity | auto; fail]
    | eexists [_; _; _; _]; eexists; split; [reflexivity | auto; fail]
    | eexists [_; _; _; _; _]; eexists; split; [reflexivity | auto; fail]
    | eexists [_; _; _; _; _; _]; eexists;
      split; [reflexivity | auto; fail] ].
Qed.


Lemma teardown_unlogged_reader
  (st : State) (r : Completion unit) (td : list Call) :
  _MPFLog (self st) = None ->
  finished st r td ->
  Forall (fun ev => touches_reader ev = false) td.
Proof.
  intros Hlog H. teardown_cases H; repeat constructor.
Qed.

(** X4: when a call of lines 35-42 raises while [_MPFLog] is still [None],
    the reader is left as it is: its [cleanup] is not called and the
    attribute is not deleted, also when the reader had been constructed
    and it was the publisher that failed. *)
Theorem reader_is_left_open
  (fuel : nat) (s : Object) (w : World) (ev : Call) (e : PyExc) :
  _MPFLog s = None ->
  In ev (trace (snd (run ext cls fuel s w))) ->
  failed_in_setup ev e ->
  Forall (fun ev => touches_reader ev = false)
         (trace (snd (run ext cls fuel s w))).
Proof.
  intros Hnone Hin Hfail.
  destruct (failed_in_setup_not_calm Hfail) as [Hcalm Htd].
  outline_cases fuel s w; rewrite Hevs in *; clear Hevs.
  - exfalso. hunt Hin; subst; try discriminate;
      try (failed_setup_cases Hfail; discriminate).
    apply (calm_member _ Hwork) in Hin. congruence.
  - rewrite Hnone in *. simpl in *.
    pose proof (teardown_unlogged_reader Hlog Hfin) as Hquiet.
    destruct (failed_in_setup_other Hfail0) as (_ & _ & Hq).
    destruct Hpre as [-> | [-> | ->]]; simpl;
      repeat (constructor; [reflexivity || exact Hq | ]); exact Hquiet.
  - exfalso. hunt Hin; subst; try discriminate;
      try (failed_setup_cases Hfail; discriminate).
    apply (calls_of_teardown_only _ Hfin) in Hin. congruence.
  - exfalso. hunt Hin; subst; try discriminate;
      try (failed_setup_cases Hfail; discriminate).
    + apply (calm_member _ Hwork) in Hin. congruence.
    + apply (calls_of_teardown_only _ Hfin) in Hin. congruence.
  - exfalso. hunt Hin; subst; try discriminate;
      try (failed_setup_cases Hfail; discriminate).
    + apply (calm_member _ Hwork) in Hin. congruence.
    + apply (calls_of_teardown_only _ Hfin) in Hin. congruence.
Qed.

Lemma no_report_counted (l : list Call) :
  Forall (fun ev => is_crash_report ev = false) l ->
  length (filter is_crash_report l) = 0.
Proof.
  induction 1 as [ | ev l Hev _ IH]; simpl; auto.
  rewrite Hev. exact IH.
Qed.

Lemma loop_call_not_report (ev : Call) :
  is_loop_call ev = true -> is_crash_report ev = false.
Proof.
  destruct ev; simpl; auto; discriminate.
Qed.

(** X5: a run logs at most one crash report, and none at all when a poll
    found the stop request, whatever the teardown then does. *)
Theorem crash_report_at_most_once (fuel : nat) (s : Object) (w : World) :
  length (filter is_crash_report (trace (snd (run ext cls fuel s w)))) <= 1 /\
  (forall d,
      In (ECheckForUpdate (NewMessage STOP_PROCESS d))
         (trace (snd (run ext cls fuel s w))) ->
      Forall (fun ev => is_crash_report ev = false)
             (trace (snd (run ext cls fuel s w)))).
Proof.
  outline_cases fuel s w; rewrite Hevs; clear Hevs.
  - assert (Forall (fun ev => is_crash_report ev = false)
                   (entered (name s) ++ work)) as Hall
        by sweep calm_not_report teardown_not_report.
    rewrite (no_report_counted Hall). auto.
  - split.
    + destruct (failed_in_setup_other Hfail0) as (_ & Hq & _).
      assert (Forall (fun ev => is_crash_report ev = false) td) as Htd
          by sweep calm_not_report teardown_not_report.
      pose proof (no_report_counted Htd) as Hzero.
      destruct Hpre as [-> | [-> | ->]]; destruct (_MPFLog s);
        simpl; rewrite Hq; simpl; lia.
    + intros d Hin. exfalso.
      destruct Hpre as [-> | [-> | ->]]; destruct (_MPFLog s);
        hunt Hin; try discriminate;
        try (failed_setup_cases Hfail0; discriminate);
        apply (calls_of_teardown_only _ Hfin) in Hin; discriminate.
  - split.
    + assert (Forall (fun ev => is_crash_report ev = false) td) as Htd
          by sweep calm_not_report teardown_not_report.
      pose proof (no_report_counted Htd) as Hzero.
      unfold setup_calls. simpl. lia.
    + intros d Hin. exfalso. hunt Hin; try discriminate.
      apply (calls_of_teardown_only _ Hfin) in Hin. discriminate.
  - split.
    + assert (Forall (fun ev => is_crash_report ev = false)
                     (entered (name s) ++ work ++ [ev0])) as Hfront.
      { pose proof (loop_call_not_report _ Hcall) as Hq.
        sweep calm_not_report teardown_not_report. }
      assert (Forall (fun ev => is_crash_report ev = false) td) as Htd
          by sweep calm_not_report teardown_not_report.
      replace (entered (name s) ++ work ++ ev0 :: crash_log (name s) e0 :: td)
        with ((entered (name s) ++ work ++ [ev0])
                ++ crash_log (name s) e0 :: td)
        by (rewrite <- !app_assoc; reflexivity).
      rewrite filter_app, length_app, (no_report_counted Hfront).
      simpl. rewrite (no_report_counted Htd). lia.
    + intros d Hin. exfalso. hunt Hin; try discriminate.
      * apply (calm_member _ Hwork) in Hin. discriminate.
      * subst ev0. failed_loop_cases Hfail0; discriminate.
      * apply (calls_of_teardown_only _ Hfin) in Hin. discriminate.
  - assert (Forall (fun ev => is_crash_report ev = false)
                   (entered (name s) ++ work ++
                      ECheckForUpdate (NewMessage STOP_PROCESS d0)
                      :: ELog DEBUG (msg_stop (name s)) :: td)) as Hall
        by sweep calm_not_report teardown_not_report.
    rewrite (no_report_counted Hall). auto.
Qed.

(** *** Properties of the state that every block of [run] keeps *)

Section StateInvariant.

Variable Inv : State -> Prop.

Hypothesis Inv_setup : keeps Inv (setup ext).
Hypothesis Inv_initialize : keeps Inv (initialize cls).
Hypothesis Inv_iteration : keeps Inv (iteration ext cls).
Hypothesis Inv_on_crash : forall e, keeps Inv (on_crash ext e).
Hypothesis Inv_teardown : keeps Inv (teardown ext cls).

Lemma invariant_loop (n : nat) : keeps Inv (loop ext cls n).
Proof.
  induction n as [ | n IH]; intros st H.
  - exact H.
  - rewrite loop_step.
    pose proof (Inv_iteration H) as Hit.
    destruct (iteration ext cls st) as [[[ | ] | e | ] st1]; simpl in *;
      auto.
Qed.

Lemma invariant_run (fuel : nat) (s : Object) (w : World) :
  Inv {| self := s; world := w; trace := [] |} ->
  Inv (snd (run ext cls fuel s w)).
Proof.
  intros H0. rewrite run_unfold. cbv zeta.
  pose proof (Inv_setup H0) as H1.
  destruct (setup ext _) as [[[] | e | ] st1]; simpl in H1.
  - pose proof (Inv_initialize H1) as H2.
    destruct (initialize cls st1) as [[[] | e | ] st2]; simpl in H2.
    + pose proof (invariant_loop fuel H2) as H3.
      destruct (loop ext cls fuel st2) as [[[] | e | ] st3]; simpl in H3.
      * apply Inv_teardown. exact H3.
      * apply Inv_teardown. apply Inv_on_crash. exact H3.
      * exact H3.
    + apply Inv_teardown. apply Inv_on_crash. exact H2.
    + exact H2.
  - apply Inv_teardown. apply Inv_on_crash. exact H1.
  - exact H1.
Qed.

End StateInvariant.


Lemma sleeps_for_app (per : option Period) (a b : list Call) :
  Forall (sleeps_for per) a -> Forall (sleeps_for per) b ->
  Forall (sleeps_for per) (a ++ b).
Proof.
  intros Ha Hb. apply Forall_app. auto.
Qed.


(** *** How a run ends *)

Lemma run_ends_in_teardown (fuel : nat) (s : Object) (w : World) :
  fst (run ext cls fuel s w) <> Running ->
  exists st, run ext cls fuel s w = teardown ext cls st.
Proof.
  rewrite run_unfold. cbv zeta.
  destruct (setup ext _) as [[[] | e | ] st1]; simpl.
  - destruct (initialize cls st1) as [[[] | e | ] st2]; simpl.
    + destruct (loop ext cls fuel st2) as [[[] | e | ] st3]; simpl.
      * eauto.
      * eauto.
      * congruence.
    + eauto.
    + congruence.
  - eauto.
  - congruence.
Qed.

Lemma teardown_return (st st' : State) :
  teardown ext cls st = (Normal tt, st') ->
  released (task_checker (self st')) /\
  released (results_publisher (self st')) /\
  exists pre,
    trace st' =
      pre ++ [ECleanup None; ELog DEBUG (msg_exiting (name (self st')))].
Proof.
  intros H. revert H.
  crunch; intros H; try discriminate H; injection H as <-; simpl.
  all: repeat match goal with
              | H : task_checker _ = _ |- _ => rewrite H
              | H : results_publisher _ = _ |- _ => rewrite H
              end; simpl.
  all: split; [exact I | split; [exact I | ] ].
  all: tidy.
  all: first
    [ eexists (trace st ++ [_]); rewrite <- app_assoc; reflexivity
    | eexists (trace st ++ [_; _]); rewrite <- app_assoc; reflexivity
    | eexists (trace st ++ [_; _; _]); rewrite <- app_assoc; reflexivity
    | eexists (trace st ++ [_; _; _; _]); rewrite <- app_assoc; reflexivity
    | eexists (trace st ++ [_; _; _; _; _]);
      rewrite <- app_assoc; reflexivity
    | eexists (trace st ++ [_; _; _; _; _; _]);
      rewrite <- app_assoc; reflexivity ].
Qed.


Lemma loop_more (n k : nat) :
  forall st : State,
    fst (loop ext cls n st) <> Running ->
    loop ext cls (n + k) st = loop ext cls n st.
Proof.
  induction n as [ | n IH]; intros st H.
  - simpl in H. congruence.
  - change (S n + k) with (S (n + k)).
    rewrite !loop_step in *.
    destruct (iteration ext cls st) as [[[ | ] | e | ] st1]; auto.
Qed.


(** *** What [init] finds *)

Lemma setup_fields (st st1 : State) :
  setup ext st = (Normal tt, st1) ->
  trace st1 = trace st ++ setup_calls /\
  shared_memory (self st1) = shared_memory (self st) /\
  (exists tc, task_checker (self st1) = PyObj tc) /\
  (exists rp, results_publisher (self st1) = PyObj rp) /\
  _MPFLog (self st1) = Some (getLogger "MPFLogger").
Proof.
  intros H. revert H. unfold setup_calls.
  crunch; intros H; try discriminate H; injection H as <-; simpl; tidy.
  repeat split; eauto.
Qed.

Lemma crash_then_teardown (e : PyExc) (st : State) :
  exists after,
    trace (snd (teardown ext cls (snd (on_crash ext e st)))) =
      trace st ++ after /\
    Forall (fun ev => in_teardown ev = true \/ is_crash_report ev = true)
           after.
Proof.
  assert (forall st : State,
             exists after,
               trace (snd (teardown ext cls st)) = trace st ++ after /\
               Forall (fun ev => in_teardown ev = true) after) as Htd.
  { intros st2.
    destruct (teardown_finishes st2) as (r & td & st' & Heq & Htr).
    exists td. rewrite Heq. simpl. split; [exact Htr | ].
    apply (@teardown_calls st2 r td). exists st'. auto. }
  destruct (_MPFLog (self st)) as [lg | ] eqn:Hlog.
  - rewrite (on_crash_logged e st Hlog). simpl.
    destruct (Htd (push st [crash_log (name (self st)) e]))
      as (after & Heq & Hall).
    exists (crash_log (name (self st)) e :: after).
    rewrite Heq. simpl. rewrite <- app_assoc. split; [reflexivity | ].
    constructor; [right; reflexivity | ].
    eapply Forall_impl; [ | exact Hall]. auto.
  - rewrite (on_crash_unlogged e st Hlog). simpl.
    destruct (Htd st) as (after & Heq & Hall).
    exists after. split; [exact Heq | ].
    eapply Forall_impl; [ | exact Hall]. auto.
Qed.

(** The calls of a run start with those of the state it has reached. *)
Lemma grows_core (T : list Call) (st st' : State) (evs : list Call) :
  shared_memory (self st') = shared_memory (self st) ->
  trace st' = trace st ++ evs ->
  Forall (fun ev => is_hook_call ev = false) evs ->
  (exists more, trace st = T ++ more) ->
  exists more, trace st' = T ++ more.
Proof.
  intros _ Htr _ [more Hmore].
  exists (more ++ evs). rewrite Htr, Hmore, app_assoc. reflexivity.
Qed.

Lemma grows_hook (T : list Call) (st : State) h ev :
  is_hook h ev ->
  (exists more, trace st = T ++ more) ->
  exists more, trace (snd (call_hook h ev st)) = T ++ more.
Proof.
  intros _ [more Hmore]. rewrite call_hook_result. simpl.
  eexists. rewrite Hmore, <- app_assoc. reflexivity.
Qed.

Lemma initialize_trace (st : State) :
  exists more,
    trace (snd (initialize cls st)) =
      trace st ++ EInit (raised (w_init cls (self st) (world st))) :: more.
Proof.
  crunch; tidy; eexists; reflexivity.
Qed.

Lemma run_starts_with_init (fuel : nat) (s : Object) (w : World)
  (st1 : State) :
  setup ext {| self := s; world := w; trace := [] |} = (Normal tt, st1) ->
  exists more,
    trace (snd (run ext cls fuel s w)) =
      (setup_calls ++ [EInit (raised (w_init cls (self st1) (world st1)))])
        ++ more.
Proof.
  intros Hs. rewrite run_unfold. cbv zeta. rewrite Hs.
  pose proof Hs as Hf. apply setup_fields in Hf.
  destruct Hf as (Htr1 & _). simpl in Htr1.
  set (T := setup_calls
              ++ [EInit (raised (w_init cls (self st1) (world st1)))]).
  set (Inv := fun st : State => exists more, trace st = T ++ more).
  assert (Inv (snd (initialize cls st1))) as Hinit.
  { destruct (initialize_trace st1) as [more Hmore].
    exists more. rewrite Hmore, Htr1. unfold T.
    rewrite <- app_assoc. reflexivity. }
  assert (keeps Inv (teardown ext cls)) as Ktd
      by (apply keeps_teardown; [apply grows_core | apply grows_hook]).
  assert (forall e, keeps Inv (on_crash ext e)) as Kcr
      by (intros e; apply keeps_on_crash; apply grows_core).
  assert (keeps Inv (loop ext cls fuel)) as Kloop
      by (apply keeps_loop; [apply grows_core | apply grows_hook]).
  destruct (initialize cls st1) as [[[] | e | ] st2]; simpl in Hinit.
  - pose proof (Kloop st2 Hinit) as Hl.
    destruct (loop ext cls fuel st2) as [[[] | e | ] st3]; simpl in Hl.
    + apply Ktd. exact Hl.
    + apply Ktd. apply Kcr. exact Hl.
    + exact Hl.
  - apply Ktd. apply Kcr. exact Hinit.
  - exact Hinit.
Qed.

Lemma counted_once (p : Call -> bool) (l : list Call) (ev : Call) :
  In ev l -> p ev = true -> 1 <= length (filter p l).
Proof.
  intros Hin Hp. induction l as [ | a l IH]; [destruct Hin | ].
  simpl. destruct Hin as [-> | Hin].
  - rewrite Hp. simpl. lia.
  - specialize (IH Hin). destruct (p a); simpl; lia.
Qed.

(** X10: when [init] is called, it is called on the object with the shared
    memory handle as it was when [run] started, with the reader and the
    publisher constructed and the logger assigned. *)
Theorem init_finds_everything_set_up
  (fuel : nat) (s : Object) (w : World) (r : option PyExc) :
  In (EInit r) (trace (snd (run ext cls fuel s w))) ->
  exists o w',
    r = raised (w_init cls o w') /\
    shared_memory o = shared_memory s /\
    (exists tc, task_checker o = PyObj tc) /\
    (exists rp, results_publisher o = PyObj rp) /\
    _MPFLog o = Some (getLogger "MPFLogger").
Proof.
  intros Hin.
  pose proof (proj1 (run_balanced fuel s w)) as Hone.
  set (st0 := {| self := s; world := w; trace := [] |} : State).
  destruct (setup_cases st0)
    as [ (st1 & Hs & _)
       | (e & st1 & pre & ev & Hs & Htr1 & Hfail & Hpre & _) ].
  - pose proof Hs as Hg. apply (run_starts_with_init fuel) in Hg.
    destruct Hg as [more Hmore].
    pose proof Hs as Hf. apply setup_fields in Hf.
    destruct Hf as (_ & Hmem & Htc & Hrp & Hlog).
    exists (self st1), (world st1).
    split; [ | auto].
    rewrite Hmore in Hin, Hone.
    rewrite filter_app, length_app in Hone.
    rewrite filter_app, length_app in Hone. simpl in Hone.
    hunt Hin; try discriminate.
    + injection Hin as <-. reflexivity.
    + pose proof (@counted_once is_init_call more (EInit r) Hin eq_refl).
      lia.
  - exfalso.
    revert Hin. rewrite run_unfold. cbv zeta. fold st0. rewrite Hs.
    destruct (crash_then_teardown e st1) as (after & -> & Hall).
    rewrite Htr1. simpl. intros Hin.
    destruct (after_quiet Hall) as [_ Hnone].
    destruct Hpre as [-> | [-> | ->]]; hunt Hin; try discriminate;
      try (failed_setup_cases Hfail; discriminate);
      pose proof (found _ _ Hnone Hin) as Habs; discriminate.
Qed.

End Properties.

(** ** Deciding properties of a sequence of calls *)

Lemma checker_cleanup_checked
  (Data Period : Type) (evs : list (Event Data Period)) :
  existsb checker_cleanup_raised evs = false ->
  ~ checker_cleanup_failed evs.
Proof.
  intros H [e He].
  assert (existsb checker_cleanup_raised evs = true) as Habs.
  { apply existsb_exists. exists (ECheckerCleanup (Some e)). auto. }
  congruence.
Qed.

(** ** Hooks a subclass does not define *)

Section Unimplemented.

Context {Chan Mem Data Period TaskChecker ResultPublisher World : Type}.

Variable ext : Externals Chan Data Period TaskChecker ResultPublisher World.
Variable c : Subclass Chan Mem Data Period TaskChecker ResultPublisher World.

Local Open Scope list_scope.

Lemma base_hook_raises
  (o : MPFProcess Chan Mem Period TaskChecker ResultPublisher) (w : World) :
  raise_NotImplementedError o w =
    {| raised := Some NotImplementedError;
       memory_after := shared_memory o;
       world_after := w |}.
Proof.
  reflexivity.
Qed.

(** C8: each of the five hooks of the base class raises
    [NotImplementedError] whenever it is called, and leaves everything as
    it was.  So in a run of a class that does not define a hook, every call
    of that hook raises: for [init], [update], [step] and [publish] the
    critical log line and the teardown follow at once, for [cleanup] the
    exception leaves [run]. *)
Theorem unimplemented_hooks_raise
  (fuel : nat) (s : MPFProcess Chan Mem Period TaskChecker ResultPublisher)
  (w : World) :
  (forall (o : MPFProcess Chan Mem Period TaskChecker ResultPublisher)
          (w' : World) (h : string) (d : Data),
      raised (init o w') = Some NotImplementedError /\
      raised (update h d o w') = Some NotImplementedError /\
      raised (step o w') = Some NotImplementedError /\
      raised (publish o w') = Some NotImplementedError /\
      raised (cleanup o w') = Some NotImplementedError) /\
  (forall pre ev post,
      trace (snd (run ext (methods c) fuel s w)) = pre ++ ev :: post ->
      (def_init c = None /\ exists r, ev = EInit r) \/
      (def_update c = None /\ exists h d r, ev = EUpdate h d r) \/
      (def_step c = None /\ exists r, ev = EStep r) \/
      (def_publish c = None /\ exists r, ev = EPublish r) ->
      failed_in_loop ev NotImplementedError /\
      exists post',
        post =
          ELog CRITICAL
            (msg_crashed (name s) (format_exc ext NotImplementedError))
            :: post' /\
        no_loop_call post') /\
  (def_cleanup c = None ->
   forall r,
     In (ECleanup r) (trace (snd (run ext (methods c) fuel s w))) ->
     r = Some NotImplementedError /\
     fst (run ext (methods c) fuel s w) = Raised NotImplementedError).
Proof.
  split; [ | split].
  - intros o w' h d. repeat split.
  - intros pre ev post Hsplit Hev.
    assert (In ev (trace (snd (run ext (methods c) fuel s w)))) as Hin
        by (rewrite Hsplit; apply in_elt).
    pose proof (run_genuine ext (methods c) fuel s w) as Hall.
    rewrite Forall_forall in Hall. specialize (Hall ev Hin).
    assert (failed_in_loop ev NotImplementedError) as Hfail.
    { unfold failed_in_loop.
      destruct Hev as [[Hd [r ->]] | [[Hd (h & d & r & ->)]
                      | [[Hd [r ->]] | [Hd [r ->]]]]];
        simpl in Hall; destruct Hall as (o & w' & ->);
        rewrite Hd; simpl; eauto 10. }
    split; [exact Hfail | ].
    eapply failed_call_is_logged; eauto.
  - intros Hd r Hin.
    pose proof (run_genuine ext (methods c) fuel s w) as Hall.
    rewrite Forall_forall in Hall. specialize (Hall _ Hin).
    simpl in Hall. destruct Hall as (o & w' & ->).
    rewrite Hd in *. simpl in *. split; [reflexivity | ].
    eapply failed_release_is_last; eauto.
Qed.

End Unimplemented.

(** ** The properties on the scripted parent *)

Import Scenario.

Local Open Scope list_scope.




Lemma stop_request_ends_the_loop_witness :
  let t := trace (snd (run (parent no_faults) worker 5 w1
                           [Some ("DO_X", 42); stop])) in
  t = firstn 10 t ++ ECheckForUpdate (NewMessage STOP_PROCESS 0)
        :: skipn 11 t /\
  no_loop_call (skipn 11 t).
Proof.
  assert (trace (snd (run (parent no_faults) worker 5 w1
                          [Some ("DO_X", 42); stop])) =
          firstn 10
            (trace (snd (run (parent no_faults) worker 5 w1
                             [Some ("DO_X", 42); stop])))
            ++ ECheckForUpdate (NewMessage STOP_PROCESS 0) ::
            skipn 11
              (trace (snd (run (parent no_faults) worker 5 w1
                               [Some ("DO_X", 42); stop])))) as H1
      by (vm_compute; reflexivity).
  cbv zeta. split; [exact H1 | ].
  exact (proj1
           (proj2 (proj2 (stop_request_ends_the_loop (parent no_faults)
                            worker 5 w1 [Some ("DO_X", 42); stop]))
              _ _ _ H1)).
Defined.

Lemma iteration_order_witness :
  let st := at_loop [Some ("DO_X", 42)] in
  let st' := snd (iteration (parent no_faults) worker st) in
  iteration (parent no_faults) worker st = (Normal Continue, st') /\
  exists p,
    goes_on p /\
    trace st' =
      trace st ++ ECheckForUpdate p :: update_of p
        ++ [EStep None; EPublish None]
        ++ sleep_of (_loop_wait_period (self st)).
Proof.
  assert (iteration (parent no_faults) worker (at_loop [Some ("DO_X", 42)]) =
          (Normal Continue,
           snd (iteration (parent no_faults) worker
                  (at_loop [Some ("DO_X", 42)])))) as H1
      by (vm_compute; reflexivity).
  cbv zeta. split; [exact H1 | ].
  exact (iteration_order (parent no_faults) worker _ H1).
Defined.





(** The reader's [cleanup] raises. *)
Lemma teardown_failure_propagates_witness :
  let r := run (parent cleanup_faulty) worker 5 w1 [stop] in
  let ev := ECheckerCleanup (Data := nat) (Period := nat)
              (Some (Exception "closed")) in
  In ev (trace (snd r)) /\
  (ev = ECheckerCleanup (Some (Exception "closed")) \/
   ev = ECleanup (Some (Exception "closed"))) /\
  fst r = Raised (Exception "closed") /\
  exists pre, trace (snd r) = pre ++ [ev].
Proof.
  assert (In (ECheckerCleanup (Some (Exception "closed")))
            (trace (snd (run (parent cleanup_faulty) worker 5 w1 [stop]))))
    as H1 by (vm_compute; auto 12).
  assert (ECheckerCleanup (Data := nat) (Period := nat)
            (Some (Exception "closed")) =
          ECheckerCleanup (Some (Exception "closed")) \/
          ECheckerCleanup (Data := nat) (Period := nat)
            (Some (Exception "closed")) =
          ECleanup (Some (Exception "closed"))) as H2
      by (left; reflexivity).
  cbv zeta. split; [exact H1 | split; [exact H2 | ] ].
  exact (teardown_failure_propagates (parent cleanup_faulty) worker 5 w1
           [stop] H1 H2).
Defined.

(** A subclass without [step]. *)
Lemma unimplemented_hooks_raise_witness :
  let t := trace (snd (run (parent no_faults) (methods no_step) 9 w1
                           [None; None])) in
  t = firstn 7 t ++ EStep (Some NotImplementedError) :: skipn 8 t /\
  failed_in_loop (EStep (Data := nat) (Period := nat)
                    (Some NotImplementedError))
                 NotImplementedError /\
  exists post',
    skipn 8 t =
      ELog CRITICAL (msg_crashed "w1" (describe NotImplementedError))
        :: post' /\
    no_loop_call post'.
Proof.
  assert (trace (snd (run (parent no_faults) (methods no_step) 9 w1
                          [None; None])) =
          firstn 7
            (trace (snd (run (parent no_faults) (methods no_step) 9 w1
                             [None; None])))
            ++ EStep (Some NotImplementedError) ::
            skipn 8
              (trace (snd (run (parent no_faults) (methods no_step) 9 w1
                               [None; None])))) as H1
      by (vm_compute; reflexivity).
  cbv zeta. split; [exact H1 | ].
  apply (proj1 (proj2 (unimplemented_hooks_raise (parent no_faults) no_step
                         9 w1 [None; None])) _ _ _ H1).
  right. right. left. split; [reflexivity | eauto].
Defined.

Lemma counting_follows :
  hooks_follow worker_counting (fun a b => count a <= count b).
Proof.
  intros h ev Hh s w.
  destruct Hh; simpl; try lia.
  destruct (shared_memory s); simpl; lia.
Qed.

Lemma counting_blind : hooks_blind worker_counting.
Proof.
  intros h ev Hh s1 s2 w Hal.
  destruct Hh; simpl; auto.
Qed.


(** The constructor of the reader raises. *)
Lemma no_cleanup_without_logger_witness :
  let r := run (parent checker_faulty) worker 5 w1 [stop] in
  let ev := ENewTaskChecker (Data := nat) (Period := nat)
              (Some (Exception "pipe")) in
  _MPFLog w1 = None /\
  In ev (trace (snd r)) /\
  failed_in_setup ev (Exception "pipe") /\
  fst r = Raised AttributeError /\
  cleanup_calls (trace (snd r)) = 0 /\
  (forall m, ~ In (ELog CRITICAL m) (trace (snd r))).
Proof.
  assert (_MPFLog w1 = None) as H1 by reflexivity.
  assert (In (ENewTaskChecker (Some (Exception "pipe")))
            (trace (snd (run (parent checker_faulty) worker 5 w1 [stop]))))
    as H2 by (vm_compute; auto 10).
  assert (failed_in_setup
            (ENewTaskChecker (Data := nat) (Period := nat)
               (Some (Exception "pipe")))
            (Exception "pipe")) as H3
      by (unfold failed_in_setup; auto).
  cbv zeta. split; [exact H1 | split; [exact H2 | split; [exact H3 | ] ] ].
  exact (no_cleanup_without_logger (parent checker_faulty) worker 5 w1
           [stop] H1 H2 H3).
Defined.


(** ** The further properties on the scripted parent *)


(** The reader is constructed, the constructor of the publisher raises. *)
Lemma reader_is_left_open_witness :
  let r := run (parent publisher_faulty) worker 5 w1 [stop] in
  let ev := ENewResultPublisher (Data := nat) (Period := nat)
              (Some (Exception "pipe")) in
  _MPFLog w1 = None /\
  In ev (trace (snd r)) /\
  failed_in_setup ev (Exception "pipe") /\
  Forall (fun ev => touches_reader ev = false) (trace (snd r)).
Proof.
  assert (_MPFLog w1 = None) as H1 by reflexivity.
  assert (In (ENewResultPublisher (Some (Exception "pipe")))
            (trace (snd (run (parent publisher_faulty) worker 5 w1 [stop]))))
    as H2 by (vm_compute; auto 10).
  assert (failed_in_setup
            (ENewResultPublisher (Data := nat) (Period := nat)
               (Some (Exception "pipe")))
            (Exception "pipe")) as H3
      by (unfold failed_in_setup; auto).
  cbv zeta. split; [exact H1 | split; [exact H2 | split; [exact H3 | ] ] ].
  exact (reader_is_left_open (parent publisher_faulty) worker 5 w1 [stop]
           H1 H2 H3).
Defined.



(** [init] finds the handle that was injected before the run. *)
Lemma init_finds_everything_set_up_witness :
  let s := set_shared_memory w1 (Some 7) in
  let r := run (parent no_faults) worker_counting 5 s [stop] in
  In (EInit None) (trace (snd r)) /\
  exists o w',
    None = raised (w_init worker_counting o w') /\
    shared_memory o = Some 7 /\
    (exists tc, task_checker o = PyObj tc) /\
    (exists rp, results_publisher o = PyObj rp) /\
    _MPFLog o = Some (getLogger "MPFLogger").
Proof.
  assert (In (EInit None)
            (trace (snd (run (parent no_faults) worker_counting 5
                             (set_shared_memory w1 (Some 7)) [stop]))))
    as H1 by (vm_compute; auto 10).
  cbv zeta. split; [exact H1 | ].
  exact (init_finds_everything_set_up (parent no_faults) worker_counting 5
           (set_shared_memory w1 (Some 7)) [stop] None H1).
Defined.

Lemma init_once_and_first_witness :
  let t := trace (snd (run (parent no_faults) worker 5 w1
                           [Some ("DO_X", 42); stop])) in
  t = firstn 8 t ++ EStep None :: skipn 9 t /\
  In (EInit None) (firstn 8 t).
Proof.
  assert (trace (snd (run (parent no_faults) worker 5 w1
                          [Some ("DO_X", 42); stop])) =
          firstn 8
            (trace (snd (run (parent no_faults) worker 5 w1
                             [Some ("DO_X", 42); stop])))
            ++ EStep None ::
            skipn 9
              (trace (snd (run (parent no_faults) worker 5 w1
                               [Some ("DO_X", 42); stop])))) as H1
      by (vm_compute; reflexivity).
  cbv zeta. split; [exact H1 | ].
  exact (proj2 (init_once_and_first (parent no_faults) worker 5 w1
                  [Some ("DO_X", 42); stop])
           _ _ _ H1 eq_refl).
Defined.

Lemma crash_report_at_most_once_witness :
  let t := trace (snd (run (parent cleanup_faulty) worker 5 w1 [stop])) in
  In (ECheckForUpdate (NewMessage STOP_PROCESS 0)) t /\
  Forall (fun ev => is_crash_report ev = false) t.
Proof.
  assert (In (ECheckForUpdate (NewMessage STOP_PROCESS 0))
            (trace (snd (run (parent cleanup_faulty) worker 5 w1 [stop]))))
    as H1 by (vm_compute; auto 10).
  cbv zeta. split; [exact H1 | ].
  exact (proj2 (crash_report_at_most_once (parent cleanup_faulty) worker 5
                  w1 [stop]) 0 H1).
Defined.
